(** * Inference Recommender and scikit-learn notebooks: client-side logic

    A shallow embedding of the code cells of the two notebooks that do more
    than forward a request: the merge of the three sub-records of a
    recommendation into one row, the [pandas] table built from the rows, the
    status polling loop, the generated job names, the percentile log lines
    with their metric regular expression, and the model persistence of
    [script.py].

    Python values are embedded as follows.
    - A [dict] is an insertion-ordered association list with unique keys
      ([dict_wf]); [d[k] = v] is [dict_setitem], [{**a, **b}] is a fresh dict
      updated with [a] and then with [b].
    - A raised exception is the [Raise] case of [result].
    - A [pandas.DataFrame] is its column index and its rows; a missing cell
      (NaN) is [None]. *)

From Stdlib Require Import ZArith Lia Ascii String DecimalString DecimalZ DecimalNat.
From stdpp Require Import base option list strings gmap.

Set Warnings "-abstract-large-number,-clear-no-such-hyp".


Inductive exn : Type :=
| KeyError (key : string)
| FileNotFoundError (path : string)
| UnpicklingError (path : string).

Inductive result (A : Type) : Type :=
| Ok (a : A)
| Raise (e : exn).

Arguments Ok {A} a.
Arguments Raise {A} e.

(** ** Python dictionaries *)

Module PyDict.
Section Dict.
Context {V : Type}.

(** [d.get(k)]: [None] when the key is absent. *)
Fixpoint dict_get (k : string) (d : list (string * V)) : option V :=
  match d with
  | [] => None
  | (k', v) :: d' => if decide (k = k') then Some v else dict_get k d'
  end.

(** [d[k] = v]: an existing key keeps its position, a new key goes last. *)
Fixpoint dict_setitem (k : string) (v : V) (d : list (string * V))
  : list (string * V) :=
  match d with
  | [] => [(k, v)]
  | (k', v') :: d' =>
      if decide (k = k') then (k', v) :: d' else (k', v') :: dict_setitem k v d'
  end.

(** [d.update(other)]: the items of [other] are stored in their order. *)
Definition dict_update (d other : list (string * V)) : list (string * V) :=
  fold_left (fun acc kv => dict_setitem kv.1 kv.2 acc) other d.

Definition dict_keys (d : list (string * V)) : list string := d.*1.

(** The keys of a Python dict are unique. *)
Definition dict_wf (d : list (string * V)) : Prop := NoDup (dict_keys d).

(** [{**a, **b, **c}] *)
Definition dict_unpack3 (a b c : list (string * V)) : list (string * V) :=
  dict_update (dict_update (dict_update [] a) b) c.

End Dict.
End PyDict.
Import PyDict.

(** ** The describe response of a recommendation job *)

(** One element of [InferenceRecommendations]; the three sub-records are
  always present in the response shape. *)
Record recommendation (V : Type) : Type := {
  EndpointConfiguration : list (string * V);
  ModelConfiguration : list (string * V);
  Metrics : list (string * V)
}.
Arguments EndpointConfiguration {V} _.
Arguments ModelConfiguration {V} _.
Arguments Metrics {V} _.

(** The response of [describe_inference_recommendations_job]. [Status] is
  always present; [FailureReason] and [InferenceRecommendations] are
  optional keys, and indexing an absent one raises [KeyError]. *)
Record job_record (V : Type) : Type := {
  Status : string;
  FailureReason : option string;
  InferenceRecommendations : option (list (recommendation V))
}.
Arguments Status {V} _.
Arguments FailureReason {V} _.
Arguments InferenceRecommendations {V} _.

(** ** pandas tables *)

Module Pandas.
Section Frame.
Context {V : Type}.

(** Every row lists its cells labelled by column, in column order. *)
Record DataFrame : Type := {
  columns : list string;
  rows : list (list (string * option V))
}.

(** The columns of [pd.DataFrame(data)] for a list of dicts: every key, in
    order of first appearance. *)
Definition add_columns (cols ks : list string) : list string :=
  fold_left (fun acc k => if decide (k ∈ acc) then acc else acc ++ [k]) ks cols.

Definition frame_columns (data : list (list (string * V))) : list string :=
  fold_left (fun acc d => add_columns acc (dict_keys d)) data [].

Definition frame_row (cols : list string) (d : list (string * V))
  : list (string * option V) :=
  (fun c => (c, dict_get c d)) <$> cols.

(** [pd.DataFrame(data)] *)
Definition from_records (data : list (list (string * V))) : DataFrame :=
  let cols := frame_columns data in
  {| columns := cols; rows := frame_row cols <$> data |}.

(** [df.drop(label, inplace=True, axis=1)]: a label that is not a column
    raises [KeyError]. *)
Definition drop (label : string) (df : DataFrame) : result DataFrame :=
  if decide (label ∈ columns df) then
    Ok {| columns := filter (fun c => c ≠ label) (columns df);
          rows := filter (fun p => p.1 ≠ label) <$> rows df |}
  else Raise (KeyError label).

(** [df.head()]: the first five rows, for display. *)
Definition head (df : DataFrame) : DataFrame :=
  {| columns := columns df; rows := take 5 (rows df) |}.

(** The cell of row [i] in column [c]: [None] when there is no such row or
    column, [Some None] for NaN. *)
Definition cell (df : DataFrame) (i : nat) (c : string) : option (option V) :=
  row ← rows df !! i; dict_get c row.

End Frame.
Arguments DataFrame V : clear implicits.
End Pandas.
Import Pandas.

(** ** The result cell *)

Section Aggregation.
Context {V : Type}.

(** [{**x["EndpointConfiguration"], **x["ModelConfiguration"], **x["Metrics"]}] *)
Definition flatten_record (x : recommendation V) : list (string * V) :=
  dict_unpack3 (EndpointConfiguration x) (ModelConfiguration x) (Metrics x).

(** [data = [ ... for x in inference_recommender_job["InferenceRecommendations"]]] *)
Definition flatten_data (recs : list (recommendation V)) : list (list (string * V)) :=
  flatten_record <$> recs.

(** [df = pd.DataFrame(data); df.drop("VariantName", inplace=True, axis=1)] *)
Definition flatten_table (recs : list (recommendation V)) : result (DataFrame V) :=
  drop "VariantName" (from_records (flatten_data recs)).

(** The whole cell, run on the job record left by the polling cell. *)
Definition aggregation_cell (job : job_record V) : result (DataFrame V) :=
  match InferenceRecommendations job with
  | None => Raise (KeyError "InferenceRecommendations")
  | Some recs => flatten_table recs
  end.

Definition record_keys (x : recommendation V) : list string :=
  dict_keys (EndpointConfiguration x) ++ dict_keys (ModelConfiguration x)
    ++ dict_keys (Metrics x).

(** The three sub-records are dicts with pairwise disjoint keys. *)
Definition disjoint_keys (x : recommendation V) : Prop := NoDup (record_keys x).

(** The table the cell leaves in [df] when the drop goes through: the rows of
    the records, in their order, over the columns without [VariantName]. *)
Definition flattened (recs : list (recommendation V)) : DataFrame V :=
  let cols := filter (fun c => c ≠ "VariantName") (frame_columns (flatten_data recs)) in
  {| columns := cols; rows := (fun x => frame_row cols (flatten_record x)) <$> recs |}.

End Aggregation.

(** ** The status polling cell *)

(** What a cell does to the outside world: a describe call to the remote
    service, a printed line, a sleep of so many seconds. *)
Inductive event : Type :=
| Describe (JobName : string)
| Print (line : string)
| Sleep (seconds : Z).

(** The client handle [sm_client]: each describe call is answered from the
    state of the remote service at that moment, which the call leaves in a
    new state. *)
Class SageMakerClient (Remote V : Type) : Type := {
  describe_inference_recommendations_job : string → Remote → job_record V * Remote
}.

Definition terminal_statuses : list string := ["COMPLETED"; "STOPPED"; "FAILED"].

(** The two recommendation jobs of the notebook; their cells differ in the
    job polled and in the wording of the failure lines. *)
Inductive job_kind : Type := DefaultJob | AdvancedJob.

Definition failed_line (kind : job_kind) : string :=
  match kind with
  | DefaultJob => "Inference recommender job failed "
  | AdvancedJob => "Inference recommender job failed"
  end.

Definition reason_label (kind : job_kind) : string :=
  match kind with
  | DefaultJob => "Failed Reason: "
  | AdvancedJob => "Failure Reason: "
  end.

Inductive poll_outcome (Remote V : Type) : Type :=
| Finished (job : job_record V) (s : Remote) (log : list event)
| StillPolling (s : Remote) (log : list event).
Arguments Finished {Remote V} job s log.
Arguments StillPolling {Remote V} s log.

(** What a run of the result cells of one job comes to. *)
Inductive flow_outcome (V : Type) : Type :=
| Blocked (log : list event)
| Stopped (log : list event) (e : exn)
| Aggregated (log : list event) (job : job_record V) (table : result (DataFrame V)).
Arguments Blocked {V} log.
Arguments Stopped {V} log e.
Arguments Aggregated {V} log job table.

Section Polling.
Context {Remote V : Type} `{!SageMakerClient Remote V}.

(** One pass through the body of [while not finished]: the new value of
    [finished], the record just queried, the remote state and the log. *)
Definition poll_body (JobName : string) (s : Remote) (log : list event)
  : bool * job_record V * Remote * list event :=
  let '(job, s') := describe_inference_recommendations_job JobName s in
  if bool_decide (Status job ∈ terminal_statuses)
  then (true, job, s', log ++ [Describe JobName])
  else (false, job, s', log ++ [Describe JobName; Print "In progress"; Sleep 300]).

(** [finished = False; while not finished: ...], cut off after [fuel] passes. *)
Fixpoint poll_loop (fuel : nat) (JobName : string) (s : Remote) (log : list event)
  : poll_outcome Remote V :=
  match fuel with
  | O => StillPolling s log
  | S fuel' =>
      let '(finished, job, s', log') := poll_body JobName s log in
      if finished then Finished job s' log' else poll_loop fuel' JobName s' log'
  end.

(** The [if]/[else] after the loop: the lines printed, and the exception when
    the record has no [FailureReason]. *)
Definition status_report (kind : job_kind) (job : job_record V)
  : list event * option exn :=
  if decide (Status job = "FAILED") then
    match FailureReason job with
    | Some reason =>
        ([Print (failed_line kind); Print (reason_label kind +:+ reason)], None)
    | None => ([Print (failed_line kind)], Some (KeyError "FailureReason"))
    end
  else ([Print "Inference recommender job completed"], None).

(** The polling cell followed by the aggregation cell, as the notebook runs
    them in order: a cell that raises stops the run, a cell that ends
    normally hands over to the next one. *)
Definition results_flow (fuel : nat) (kind : job_kind) (JobName : string) (s : Remote)
  : flow_outcome V :=
  match poll_loop fuel JobName s [] with
  | StillPolling _ log => Blocked log
  | Finished job _ log =>
      match status_report kind job with
      | (out, Some e) => Stopped (log ++ out) e
      | (out, None) => Aggregated (log ++ out) job (aggregation_cell job)
      end
  end.

(** The record answered to the [n]-th describe call (counting from 0) when
    polling starts in state [s], and the state before that call. *)
Fixpoint state_before (n : nat) (JobName : string) (s : Remote) : Remote :=
  match n with
  | O => s
  | S n' => state_before n' JobName (describe_inference_recommendations_job JobName s).2
  end.

Definition response (n : nat) (JobName : string) (s : Remote) : job_record V :=
  (describe_inference_recommendations_job JobName (state_before n JobName s)).1.

Definition terminal_at (n : nat) (JobName : string) (s : Remote) : Prop :=
  Status (response n JobName s) ∈ terminal_statuses.

Global Instance terminal_at_dec n JobName s : Decision (terminal_at n JobName s) :=
  decide (Status (response n JobName s) ∈ terminal_statuses).

(** The [n]-th answer is the first one with a terminal status. *)
Definition first_terminal_at (n : nat) (JobName : string) (s : Remote) : Prop :=
  terminal_at n JobName s ∧ ∀ k, k < n → ¬ terminal_at k JobName s.

End Polling.

(** The log of [n] passes that found the job in progress. *)
Fixpoint waiting_log (n : nat) (JobName : string) : list event :=
  match n with
  | O => []
  | S n' => [Describe JobName; Print "In progress"; Sleep 300] ++ waiting_log n' JobName
  end.

(** The seconds slept in a log. *)
Fixpoint slept (log : list event) : Z :=
  match log with
  | [] => 0
  | Sleep z :: log' => z + slept log'
  | _ :: log' => slept log'
  end.

(** The describe calls made in a log. *)
Fixpoint describe_count (log : list event) : nat :=
  match log with
  | [] => 0
  | Describe _ :: log' => S (describe_count log')
  | _ :: log' => describe_count log'
  end.

(** ** Generated job names *)

(** [str(n)] for a Python [int]. *)
Definition str_int (z : Z) : string := NilEmpty.string_of_int (Z.to_int z).

Definition str_nat (n : nat) : string := NilEmpty.string_of_uint (Nat.to_uint n).

(** [s.replace(old, new)] for one-character [old] and [new]. *)
Fixpoint str_replace_char (old new : ascii) (s : string) : string :=
  match s with
  | EmptyString => EmptyString
  | String c s' =>
      String (if decide (c = old) then new else c) (str_replace_char old new s')
  end.

(** [model_name + "-instance-" + str(round(time.time()))]; [now] is the
    rounded clock reading. *)
Definition default_job_name (model_name : string) (now : Z) : string :=
  model_name +:+ "-instance-" +:+ str_int now.

(** [model_name + "-" + instance_type.replace(".", "-") + "-load-test-"
    + str(round(time.time()))] *)
Definition advanced_job_name (model_name instance_type : string) (now : Z) : string :=
  model_name +:+ "-" +:+ str_replace_char "." "-" instance_type
    +:+ "-load-test-" +:+ str_int now.






Fixpoint zeros (n : nat) : string :=
  match n with
  | O => EmptyString
  | S n' => String "0" (zeros n')
  end.

(** A decimal number padded with zeros on the left to [width] characters. *)
Definition zero_pad (width n : nat) : string :=
  zeros (width - String.length (str_nat n)) +:+ str_nat n.



(** ** Metric regular expressions *)

Module Re.

Inductive class_item : Type :=
| CRange (lo hi : ascii)
| CChar (c : ascii).

Inductive regex : Type :=
| Eps
| Lit (c : ascii)
| Set_ (items : list class_item)
| Dot
| Eol
| Cat (a b : regex)
| Alt (a b : regex)
| Star (a : regex)
| Group (a : regex).

(** [a+] *)
Definition Plus (a : regex) : regex := Cat a (Star a).

(** A run of ordinary characters. *)
Fixpoint literal (s : string) : regex :=
  match s with
  | EmptyString => Eps
  | String c s' => Cat (Lit c) (literal s')
  end.

Definition in_item (c : ascii) (it : class_item) : bool :=
  match it with
  | CRange lo hi => (N_of_ascii lo <=? N_of_ascii c)%N && (N_of_ascii c <=? N_of_ascii hi)%N
  | CChar c' => bool_decide (c = c')
  end.

Definition in_class (c : ascii) (items : list class_item) : bool :=
  existsb (in_item c) items.

Definition newline : ascii := "010"%char.

(** The text matched between two positions of the input: [s'] is what was
    left of [s] after the match. *)
Definition consumed (s s' : string) : string :=
  String.substring 0 (String.length s - String.length s') s.

(** A backtracking matcher: [rmatch r s caps k] matches [r] at the start of
    [s] and hands what is left, with the groups captured so far, to the
    continuation [k]; alternatives are tried in order and repetition is
    greedy. [$] matches at the end of the input only (a log line carries no
    line break). *)
Fixpoint rmatch (r : regex) (s : string) (caps : list string)
  (k : string → list string → option (list string)) : option (list string) :=
  match r with
  | Eps => k s caps
  | Lit c =>
      match s with
      | String c' s' => if decide (c' = c) then k s' caps else None
      | EmptyString => None
      end
  | Set_ items =>
      match s with
      | String c' s' => if in_class c' items then k s' caps else None
      | EmptyString => None
      end
  | Dot =>
      match s with
      | String c' s' => if decide (c' = newline) then None else k s' caps
      | EmptyString => None
      end
  | Eol =>
      match s with
      | EmptyString => k s caps
      | String _ _ => None
      end
  | Cat a b => rmatch a s caps (fun s' caps' => rmatch b s' caps' k)
  | Alt a b =>
      match rmatch a s caps k with
      | Some m => Some m
      | None => rmatch b s caps k
      end
  | Star a =>
      (fix star (n : nat) (s : string) (caps : list string) : option (list string) :=
         match n with
         | O => k s caps
         | S n' =>
             match rmatch a s caps (fun s' caps' =>
                     if (String.length s' <? String.length s)%nat
                     then star n' s' caps' else None) with
             | Some m => Some m
             | None => k s caps
             end
         end) (String.length s) s caps
  | Group a => rmatch a s caps (fun s' caps' => k s' (caps' ++ [consumed s s']))
  end.

(** A match starting at the first character of [s]. *)
Definition match_here (r : regex) (s : string) : option (list string) :=
  rmatch r s [] (fun _ caps => Some caps).

(** [re.search]: the leftmost match; the result lists the captured groups. *)
Fixpoint search (r : regex) (s : string) : option (list string) :=
  match match_here r s with
  | Some caps => Some caps
  | None =>
      match s with
      | EmptyString => None
      | String _ s' => search r s'
      end
  end.

(** The repetition loop of [rmatch] for [a*], on its own: at most [n] more
    rounds of [a], each consuming at least one character, before [k]. *)
Definition star_iter (a : regex) (k : string → list string → option (list string))
  : nat → string → list string → option (list string) :=
  fix star (n : nat) (s : string) (caps : list string) : option (list string) :=
    match n with
    | O => k s caps
    | S n' =>
        match rmatch a s caps (fun s' caps' =>
                if (String.length s' <? String.length s)%nat
                then star n' s' caps' else None) with
        | Some m => Some m
        | None => k s caps
        end
    end.

(** Whether the first character of [s] is in the class. *)
Definition starts_in_class (items : list class_item) (s : string) : bool :=
  match s with
  | EmptyString => false
  | String c _ => in_class c items
  end.

(** The longest prefix of [s] whose characters satisfy [p], and what follows it. *)
Fixpoint take_while (p : ascii → bool) (s : string) : string :=
  match s with
  | EmptyString => EmptyString
  | String c s' => if p c then String c (take_while p s') else EmptyString
  end.

Fixpoint skip_while (p : ascii → bool) (s : string) : string :=
  match s with
  | EmptyString => EmptyString
  | String c s' => if p c then skip_while p s' else s
  end.

End Re.
Import Re.

(** One entry of [metric_definitions]. *)
Record metric_definition : Type := {
  Name : string;
  Regex : regex
}.

(** [[0-9.]] *)
Definition digits_dot : list class_item := [CRange "0" "9"; CChar "."].

(** ["AE-at-50th-percentile: ([0-9.]+).*$"] *)
Definition median_AE_regex : regex :=
  Cat (literal "AE-at-50th-percentile: ")
    (Cat (Group (Plus (Set_ digits_dot)))
       (Cat (Star Dot) Eol)).

Definition metric_definitions : list metric_definition :=
  [{| Name := "median-AE"; Regex := median_AE_regex |}].

(** The metrics read off one log line: the name of every definition whose
    expression is found in the line, with the text of its first group. *)
Definition extract_metrics (defs : list metric_definition) (line : string)
  : list (string * string) :=
  omap (fun d =>
          match search (Regex d) line with
          | Some (v :: _) => Some (Name d, v)
          | _ => None
          end) defs.

(** [for q in [10, 50, 90]: print("AE-at-" + str(q) + "th-percentile: " +
    str(np.percentile(a=abs_err, q=q)))]; [percentile q] stands for the text
    [str(np.percentile(a=abs_err, q=q))]. *)
Definition percentile_lines (percentile : nat → string) : list string :=
  (fun q => "AE-at-" +:+ str_nat q +:+ "th-percentile: " +:+ percentile q)
    <$> [10; 50; 90].

(** ** Model persistence in [script.py] *)

(** [joblib]: a model is written as bytes, and reading back what was written
    gives the model. *)
Class Joblib (Model : Type) : Type := {
  pickle : Model → list ascii;
  unpickle : list ascii → option Model;
  unpickle_pickle : ∀ m, unpickle (pickle m) = Some m
}.

(** [os.path.join(a, b)] on POSIX. *)
Definition os_path_join (a b : string) : string :=
  match b with
  | String "/" _ => b
  | _ =>
      if decide (a = EmptyString) then b
      else if String.eqb (String.substring (String.length a - 1) 1 a) "/" then a +:+ b
      else a +:+ "/" +:+ b
  end.

Section Persistence.
Context {Model : Type} `{!Joblib Model}.

(** [joblib.dump(value, path)] *)
Definition joblib_dump (value : Model) (path : string) (fs : gmap string (list ascii))
  : gmap string (list ascii) :=
  <[path := pickle value]> fs.

(** [joblib.load(path)] *)
Definition joblib_load (path : string) (fs : gmap string (list ascii)) : result Model :=
  match fs !! path with
  | None => Raise (FileNotFoundError path)
  | Some bytes =>
      match unpickle bytes with
      | Some m => Ok m
      | None => Raise (UnpicklingError path)
      end
  end.

(** [def model_fn(model_dir)] *)
Definition model_fn (model_dir : string) (fs : gmap string (list ascii)) : result Model :=
  joblib_load (os_path_join model_dir "model.joblib") fs.

(** The end of the training script: [path = os.path.join(args.model_dir,
    "model.joblib"); joblib.dump(model, path); print("model persisted at " +
    path)]. *)
Definition persist_model (model : Model) (model_dir : string)
  (fs : gmap string (list ascii)) : gmap string (list ascii) * list event :=
  let path := os_path_join model_dir "model.joblib" in
  (joblib_dump model path fs, [Print ("model persisted at " +:+ path)]).

End Persistence.


(** Whether a path ends with a slash, as [os.path.join] tests it. *)
Definition ends_with_slash (a : string) : bool :=
  String.eqb (String.substring (String.length a - 1) 1 a) "/".

(** ** Other cells of the two notebooks *)

(** ["{}-cpu-models-".format(framework) + str(round(time.time()))] *)
Definition model_package_group_name (framework : string) (now : Z) : string :=
  framework +:+ "-cpu-models-" +:+ str_int now.

(** A character allowed in a job name: a letter, a digit or a hyphen. *)
Definition name_char (c : ascii) : bool :=
  let n := N_of_ascii c in
  ((N_of_ascii "a" <=? n) && (n <=? N_of_ascii "z"))%N
  || ((N_of_ascii "A" <=? n) && (n <=? N_of_ascii "Z"))%N
  || ((N_of_ascii "0" <=? n) && (n <=? N_of_ascii "9"))%N
  || bool_decide (c = "-"%char).

(** What the tuner result cell does to the outside world. *)
Inductive tuner_event : Type :=
| Analytics
| Wait (seconds : Z).

(** [Optimizer.analytics().dataframe()]: the table of the tuning jobs run so
    far, answered from the state of the remote service. *)
Class TunerAnalytics (Remote V : Type) : Type := {
  analytics_dataframe : Remote → DataFrame V * Remote
}.

(** [results.empty]: one of the two axes has length 0. *)
Definition df_empty {V : Type} (df : DataFrame V) : bool :=
  match rows df, columns df with
  | [], _ => true
  | _, [] => true
  | _, _ => false
  end.

Inductive tuner_outcome (Remote V : Type) : Type :=
| Results (results : DataFrame V) (s : Remote) (log : list tuner_event)
| StillWaiting (s : Remote) (log : list tuner_event).
Arguments Results {Remote V} results s log.
Arguments StillWaiting {Remote V} s log.

Section TunerResults.
Context {Remote V : Type} `{!TunerAnalytics Remote V}.

(** [while results.empty: time.sleep(1); results = ...], cut off after [fuel]
    passes. *)
Fixpoint wait_results (fuel : nat) (results : DataFrame V) (s : Remote)
  (log : list tuner_event) : tuner_outcome Remote V :=
  if df_empty results then
    match fuel with
    | O => StillWaiting s log
    | S fuel' =>
        let '(results', s') := analytics_dataframe s in
        wait_results fuel' results' s' (log ++ [Wait 1; Analytics])
    end
  else Results results s log.

(** The cell: a first query, then the loop. *)
Definition tuner_results (fuel : nat) (s : Remote) : tuner_outcome Remote V :=
  let '(results, s') := analytics_dataframe s in
  wait_results fuel results s' [Analytics].

(** The table answered to the [n]-th query (counting from 0), and the state
    before that query. *)
Fixpoint tuner_state_before (n : nat) (s : Remote) : Remote :=
  match n with
  | O => s
  | S n' => tuner_state_before n' (analytics_dataframe s).2
  end.

Definition tuner_answer (n : nat) (s : Remote) : DataFrame V :=
  (analytics_dataframe (tuner_state_before n s)).1.

(** The [n]-th answer is the first table that is not empty. *)
Definition first_results_at (n : nat) (s : Remote) : Prop :=
  df_empty (tuner_answer n s) = false ∧ ∀ k, k < n → df_empty (tuner_answer k s) = true.

End TunerResults.

(** The log of a first query and [n] more passes. *)
Fixpoint tuner_log (n : nat) : list tuner_event :=
  match n with
  | O => [Analytics]
  | S n' => tuner_log n' ++ [Wait 1; Analytics]
  end.

Fixpoint tuner_slept (log : list tuner_event) : Z :=
  match log with
  | [] => 0
  | Wait z :: log' => z + tuner_slept log'
  | Analytics :: log' => tuner_slept log'
  end.

(** ** The command line of [script.py] *)

(** [argparse], as far as the parser of the script uses it: options with one
    argument each ([nargs=None], [type=int] or [type=str]), the help option
    that every parser has, abbreviations allowed, no positional argument.
    The cases follow [ArgumentParser._parse_known_args] and [_parse_optional]
    of the standard library; a call that prints a message and exits, for
    help or for an error, is [NoReturn]. *)
Module Argparse.

#[warnings="-register-all"]
Inductive value : Type :=
| VNone
| VInt (z : Z)
| VStr (s : string)
| VList (l : list value).

Inductive arg_type : Type := TInt | TStr.

(** [int(s)] for a text: it reads back what [str] writes. *)
Class PyInt : Type := {
  int_of_str : string → option Z;
  int_of_str_int : ∀ z, int_of_str (str_int z) = Some z
}.

Inductive action : Type :=
| Help
| Store (dest : string) (type : arg_type).

(** [parser.add_argument(flag, type=type, default=default)] *)
Record argument : Type := {
  flag : string;
  type_ : arg_type;
  default : value
}.

(** [s.lstrip(c)] *)
Fixpoint lstrip_char (c : ascii) (s : string) : string :=
  match s with
  | EmptyString => EmptyString
  | String c' s' => if decide (c' = c) then lstrip_char c s' else s
  end.

(** The attribute an option is stored under:
    [flag.lstrip("-").replace("-", "_")]. *)
Definition dest_of (flag : string) : string :=
  str_replace_char "-" "_" (lstrip_char "-" flag).

(** [parser._option_string_actions] *)
Definition option_string_actions (arguments : list argument) : list (string * action) :=
  ("-h", Help) :: ("--help", Help)
    :: ((fun a => (flag a, Store (dest_of (flag a)) (type_ a))) <$> arguments).

(** The namespace before any argument is read: every default, under its
    attribute. *)
Definition defaults (arguments : list argument) : list (string * value) :=
  fold_left (fun ns a =>
               match dict_get (dest_of (flag a)) ns with
               | Some _ => ns
               | None => dict_setitem (dest_of (flag a)) (default a) ns
               end) arguments [].

(** [s.split(c, 1)] when [c] occurs in [s]. *)
Fixpoint split_at (c : ascii) (s : string) : option (string * string) :=
  match s with
  | EmptyString => None
  | String c' s' =>
      if decide (c' = c) then Some (EmptyString, s')
      else match split_at c s' with
           | Some (before, after) => Some (String c' before, after)
           | None => None
           end
  end.

(** [s.startswith(prefix)] *)
Fixpoint starts_with (s prefix : string) {struct prefix} : bool :=
  match prefix with
  | EmptyString => true
  | String a prefix' =>
      match s with
      | EmptyString => false
      | String b s' => bool_decide (a = b) && starts_with s' prefix'
      end
  end.

Fixpoint contains_char (c : ascii) (s : string) : bool :=
  match s with
  | EmptyString => false
  | String c' s' => bool_decide (c' = c) || contains_char c s'
  end.

(** [$] of a Python expression: the end of the text, or a line break that
    ends it. *)
Definition dollar : regex := Alt Eol (Cat (Lit newline) Eol).

(** ['^-\d+$|^-\d*\.\d+$'] *)
Definition negative_number : regex :=
  Alt (Cat (Lit "-") (Cat (Plus (Set_ [CRange "0" "9"])) dollar))
      (Cat (Lit "-")
         (Cat (Star (Set_ [CRange "0" "9"]))
            (Cat (Lit ".") (Cat (Plus (Set_ [CRange "0" "9"])) dollar)))).

(** [_get_option_tuples]: the options an argument abbreviates, each with the
    explicit argument it would carry; [None] is the error of the last
    branch. *)
Definition get_option_tuples (table : list (string * action)) (arg_string : string)
  : option (list (action * string * option string)) :=
  match arg_string with
  | String c0 (String c1 rest) =>
      if decide (c0 = "-"%char) then
        if decide (c1 = "-"%char) then
          let '(option_prefix, explicit_arg) :=
            match split_at "=" arg_string with
            | Some (before, after) => (before, Some after)
            | None => (arg_string, None)
            end in
          Some (omap (fun '(option_string, act) =>
                        if starts_with option_string option_prefix
                        then Some (act, option_string, explicit_arg) else None) table)
        else
          Some (omap (fun '(option_string, act) =>
                        if decide (option_string = String c0 (String c1 EmptyString))
                        then Some (act, option_string, Some rest)
                        else if starts_with option_string arg_string
                        then Some (act, option_string, None) else None) table)
      else None
  | _ => None
  end.

Inductive arg_class : Type :=
| Positional
| Optional (act : option action) (option_string : string) (explicit_arg : option string)
| Rejected.

(** [_parse_optional] *)
Definition parse_optional (table : list (string * action)) (arg_string : string)
  : arg_class :=
  match arg_string with
  | EmptyString => Positional
  | String c0 tail =>
      if decide (c0 = "-"%char) then
        match dict_get arg_string table with
        | Some act => Optional (Some act) arg_string None
        | None =>
            match tail with
            | EmptyString => Positional
            | _ =>
                let by_equals :=
                  match split_at "=" arg_string with
                  | Some (option_string, explicit_arg) =>
                      match dict_get option_string table with
                      | Some act => Some (Optional (Some act) option_string (Some explicit_arg))
                      | None => None
                      end
                  | None => None
                  end in
                match by_equals with
                | Some found => found
                | None =>
                    match get_option_tuples table arg_string with
                    | None => Rejected
                    | Some [] =>
                        match match_here negative_number arg_string with
                        | Some _ => Positional
                        | None =>
                            if contains_char " " arg_string then Positional
                            else Optional None arg_string None
                        end
                    | Some [(act, option_string, explicit_arg)] =>
                        Optional (Some act) option_string explicit_arg
                    | Some _ => Rejected
                    end
                end
            end
        end
      else Positional
  end.

(** An entry of the pattern of the command line: an argument, the [--]
    separator, or an option. *)
Inductive item : Type :=
| ItemA
| ItemDash
| ItemO (act : option action) (option_string : string) (explicit_arg : option string).

(** The pattern: after a [--] everything is an argument. *)
Fixpoint classify (table : list (string * action)) (arg_strings : list string)
  : option (list (string * item)) :=
  match arg_strings with
  | [] => Some []
  | arg_string :: rest =>
      if decide (arg_string = "--") then
        Some ((arg_string, ItemDash) :: ((fun a => (a, ItemA)) <$> rest))
      else
        match parse_optional table arg_string with
        | Rejected => None
        | Positional => cons (arg_string, ItemA) <$> classify table rest
        | Optional act option_string explicit_arg =>
            cons (arg_string, ItemO act option_string explicit_arg) <$> classify table rest
        end
  end.

Fixpoint remove_first (x : string) (l : list string) : list string :=
  match l with
  | [] => []
  | y :: l' => if decide (y = x) then l' else y :: remove_first x l'
  end.

Inductive outcome : Type :=
| Parsed (namespace : list (string * value)) (extras : list string)
| NoReturn.

Section Parse.
Context `{!PyInt}.

(** [_get_value]: the type function applied to the text. *)
Definition get_value (type : arg_type) (arg_string : string) : option value :=
  match type with
  | TStr => Some (VStr arg_string)
  | TInt => VInt <$> int_of_str arg_string
  end.

(** [_get_values] for [nargs=None]: a first [--] is taken out; one text
    gives its value, anything else the list of the values. *)
Definition get_values (type : arg_type) (arg_strings : list string) : option value :=
  match remove_first "--" arg_strings with
  | [arg_string] => get_value type arg_string
  | others => VList <$> mapM (get_value type) others
  end.

(** The loop of [_parse_known_args] over the pattern, for a parser without
    positional arguments: an option takes its explicit argument or the
    argument that follows it, and whatever is not taken goes to the extras. *)
Fixpoint consume (items : list (string * item)) (namespace : list (string * value))
  (extras : list string) : outcome :=
  match items with
  | [] => Parsed namespace extras
  | (arg_string, ItemA) :: rest => consume rest namespace (extras ++ [arg_string])
  | (arg_string, ItemDash) :: rest => consume rest namespace (extras ++ [arg_string])
  | (arg_string, ItemO None _ _) :: rest => consume rest namespace (extras ++ [arg_string])
  | (_, ItemO (Some Help) _ _) :: _ => NoReturn
  | (_, ItemO (Some (Store dest type)) _ (Some explicit_arg)) :: rest =>
      match get_values type [explicit_arg] with
      | Some v => consume rest (dict_setitem dest v namespace) extras
      | None => NoReturn
      end
  | (_, ItemO (Some (Store dest type)) _ None) :: rest =>
      match rest with
      | (arg_string, ItemA) :: rest' =>
          match get_values type [arg_string] with
          | Some v => consume rest' (dict_setitem dest v namespace) extras
          | None => NoReturn
          end
      | _ => NoReturn
      end
  end.

(** [parser.parse_known_args()] on the arguments of the command line. *)
Definition parse_known_args (arguments : list argument) (arg_strings : list string)
  : outcome :=
  match classify (option_string_actions arguments) arg_strings with
  | None => NoReturn
  | Some items => consume items (defaults arguments) []
  end.

End Parse.

(** The part of an argument that names the option: what comes before the
    first [=]. *)
Definition option_part (arg_string : string) : string :=
  match split_at "=" arg_string with
  | Some (before, _) => before
  | None => arg_string
  end.

End Argparse.
Import Argparse.

(** [os.environ.get(name)] *)
Definition environ_get (environ : gmap string string) (name : string) : value :=
  match environ !! name with
  | Some text => VStr text
  | None => VNone
  end.

(** The nine [parser.add_argument] calls of the script. *)
Definition script_arguments (environ : gmap string string) : list argument := [
  {| flag := "--n-estimators"; type_ := TInt; default := VInt 10 |};
  {| flag := "--min-samples-leaf"; type_ := TInt; default := VInt 3 |};
  {| flag := "--model-dir"; type_ := TStr; default := environ_get environ "SM_MODEL_DIR" |};
  {| flag := "--train"; type_ := TStr; default := environ_get environ "SM_CHANNEL_TRAIN" |};
  {| flag := "--test"; type_ := TStr; default := environ_get environ "SM_CHANNEL_TEST" |};
  {| flag := "--train-file"; type_ := TStr;
     default := VStr "california_housing_train.csv" |};
  {| flag := "--test-file"; type_ := TStr;
     default := VStr "california_housing_test.csv" |};
  {| flag := "--features"; type_ := TStr; default := VNone |};
  {| flag := "--target"; type_ := TStr; default := VNone |}
].

(** The option strings of the script, in the order of the parser. *)
Definition script_flags : list string :=
  ["-h"; "--help"; "--n-estimators"; "--min-samples-leaf"; "--model-dir"; "--train";
   "--test"; "--train-file"; "--test-file"; "--features"; "--target"].

(** ** Sample records *)

Module Samples.

(** A recommendation as the service answers it, values written as text. *)
Definition rec_threads (threads latency : string) : recommendation string := {|
  EndpointConfiguration :=
    [("EndpointName", "sm-epc-resnet50"); ("VariantName", "sm-epc-resnet50");
     ("InstanceType", "ml.c5.xlarge"); ("InitialInstanceCount", "1")];
  ModelConfiguration :=
    [("InferenceSpecificationName", "resnet50"); ("OMP_NUM_THREADS", threads)];
  Metrics :=
    [("CostPerHour", "0.204"); ("CostPerInference", "0.0000011");
     ("MaxInvocations", "3000"); ("ModelLatency", latency)]
|}.

(** A record whose endpoint configuration has no [VariantName]. *)
Definition rec_unlabelled : recommendation string := {|
  EndpointConfiguration := [("InstanceType", "ml.c5.xlarge")];
  ModelConfiguration := [("OMP_NUM_THREADS", "2")];
  Metrics := [("ModelLatency", "45")]
|}.

(** A record in which [InstanceType] is a key of all three sub-records and
    [OMP_NUM_THREADS] of the first two. *)
Definition rec_overlap : recommendation string := {|
  EndpointConfiguration :=
    [("VariantName", "v1"); ("InstanceType", "endpoint"); ("OMP_NUM_THREADS", "endpoint")];
  ModelConfiguration := [("InstanceType", "model"); ("OMP_NUM_THREADS", "model")];
  Metrics := [("InstanceType", "metrics"); ("ModelLatency", "45")]
|}.

(** A job record of each status. *)
Definition in_progress_job : job_record string := {|
  Status := "IN_PROGRESS"; FailureReason := None; InferenceRecommendations := None
|}.

Definition completed_job : job_record string := {|
  Status := "COMPLETED"; FailureReason := None;
  InferenceRecommendations := Some [rec_threads "2" "45"; rec_threads "4" "52"]
|}.

Definition failed_job : job_record string := {|
  Status := "FAILED";
  FailureReason := Some "Benchmark failed to start for ml.c5.xlarge";
  InferenceRecommendations := Some [rec_threads "2" "45"]
|}.

Definition failed_job_no_reason : job_record string := {|
  Status := "FAILED"; FailureReason := Some EmptyString;
  InferenceRecommendations := Some [rec_threads "2" "45"]
|}.

(** A remote service that answers the records of a script one after the
    other and stays at the last one. *)
Definition scripted_describe (JobName : string) (script : list (job_record string))
  : job_record string * list (job_record string) :=
  match script with
  | [] => (in_progress_job, [])
  | [job] => (job, [job])
  | job :: script' => (job, script')
  end.

Definition scripted_service : SageMakerClient (list (job_record string)) string :=
  {| describe_inference_recommendations_job := scripted_describe |}.

(** A remote job that is stuck: every answer is in progress. *)
Definition stuck_service : SageMakerClient unit string :=
  {| describe_inference_recommendations_job := fun _ s => (in_progress_job, s) |}.

(** A [joblib] for models that are texts, written character by character. *)
Definition text_joblib : Joblib string := {|
  pickle := list_ascii_of_string;
  unpickle := fun bytes => Some (string_of_list_ascii bytes);
  unpickle_pickle := fun m => f_equal Some (string_of_list_ascii_of_string m)
|}.



(** A job that was stopped before it produced a recommendation. *)
Definition stopped_job : job_record string := {|
  Status := "STOPPED"; FailureReason := None; InferenceRecommendations := Some []
|}.

(** The table of a tuner none of whose jobs has started, and a table of one
    finished job. *)
Definition no_results : DataFrame string := {| columns := []; rows := [] |}.

Definition one_result : DataFrame string := {|
  columns := ["n-estimators"; "FinalObjectiveValue"];
  rows := [[("n-estimators", Some "42"); ("FinalObjectiveValue", Some "51234.5")]]
|}.

(** A tuner that answers the tables of a script one after the other, and the
    empty table once the script is used up. *)
Definition scripted_analytics : TunerAnalytics (list (DataFrame string)) string := {|
  analytics_dataframe := fun script =>
    match script with
    | [] => (no_results, [])
    | df :: script' => (df, script')
    end
|}.

Definition idle_analytics : TunerAnalytics unit string :=
  {| analytics_dataframe := fun s => (no_results, s) |}.

(** [int] on texts in decimal notation. *)
Definition decimal_int (s : string) : option Z :=
  match s with
  | EmptyString => None
  | _ => Z.of_int <$> NilEmpty.int_of_string s
  end.

Definition dec_int : PyInt.
Proof.
  refine {| int_of_str := decimal_int |}.
  intros z. pose proof (NilEmpty.isi (Z.to_int z)) as Hread.
  unfold str_int, decimal_int. destruct (NilEmpty.string_of_int (Z.to_int z)) eqn:Htext.
  - exfalso. simpl in Hread. injection Hread as Hread.
    assert (z = 0%Z) as -> by (by rewrite <- (DecimalZ.of_to z), <- Hread). discriminate.
  - rewrite Hread. simpl. by rewrite DecimalZ.of_to.
Defined.

(** The environment of a training container. *)
Definition training_environ : gmap string string :=
  {[ "SM_MODEL_DIR" := "/opt/ml/model";
     "SM_CHANNEL_TRAIN" := "/opt/ml/input/data/train";
     "SM_CHANNEL_TEST" := "/opt/ml/input/data/test" ]}.

(** The percentile lines of a run. *)
Definition sample_percentile (q : nat) : string :=
  if decide (q = 10) then "17852.1"
  else if decide (q = 50) then "51234.5"
  else "110744.9".

End Samples.

(** * Properties *)

(** ** Dictionaries *)

Section DictFacts.
Context {V : Type}.
Implicit Types (d other : list (string * V)) (k : string) (v : V).

Lemma dict_get_setitem k k' v d :
  dict_get k (dict_setitem k' v d) = if decide (k = k') then Some v else dict_get k d.
Proof.
  induction d as [|[k0 v0] d IH]; simpl.
  - by destruct (decide (k = k')).
  - destruct (decide (k' = k0)) as [->|Hne]; simpl.
    + by destruct (decide (k = k0)).
    + rewrite IH. destruct (decide (k = k0)) as [->|]; [|done].
      by destruct (decide (k0 = k')) as [->|].
Qed.

Lemma dict_keys_setitem k k' v d :
  k ∈ dict_keys (dict_setitem k' v d) ↔ k = k' ∨ k ∈ dict_keys d.
Proof.
  unfold dict_keys. induction d as [|[k0 v0] d IH]; simpl.
  - rewrite list_elem_of_singleton. set_solver.
  - case_decide; subst; simpl; rewrite !elem_of_cons; [|rewrite IH]; naive_solver.
Qed.

Lemma dict_get_is_Some k d : is_Some (dict_get k d) ↔ k ∈ dict_keys d.
Proof.
  unfold dict_keys. induction d as [|[k0 v0] d IH]; simpl.
  - split; [by intros [? ?]|by intros ?%elem_of_nil].
  - rewrite elem_of_cons. case_decide; subst; [naive_solver|].
    rewrite IH. naive_solver.
Qed.

Lemma dict_get_None k d : dict_get k d = None ↔ k ∉ dict_keys d.
Proof. rewrite <- dict_get_is_Some, eq_None_not_Some. done. Qed.

Lemma dict_wf_setitem k v d : dict_wf d → dict_wf (dict_setitem k v d).
Proof.
  unfold dict_wf, dict_keys. induction d as [|[k0 v0] d IH]; simpl.
  - intros _. apply NoDup_singleton.
  - rewrite NoDup_cons. intros [Hk0 Hd]. case_decide; subst; simpl.
    + by apply NoDup_cons.
    + apply NoDup_cons. split; [|by apply IH].
      intros Hin. apply (dict_keys_setitem k0 k v d) in Hin. naive_solver.
Qed.

Lemma dict_wf_update d other : dict_wf d → dict_wf (dict_update d other).
Proof.
  unfold dict_update. revert d.
  induction other as [|[k v] other IH]; simpl; [done|].
  intros d Hd. by apply IH, dict_wf_setitem.
Qed.

Lemma dict_keys_update k d other :
  k ∈ dict_keys (dict_update d other) ↔ k ∈ dict_keys d ∨ k ∈ dict_keys other.
Proof.
  unfold dict_update. revert d.
  induction other as [|[k1 v1] other IH]; simpl; intros d.
  - change (dict_keys (@nil (string * V))) with (@nil string).
    rewrite elem_of_nil. naive_solver.
  - rewrite IH, dict_keys_setitem.
    change (dict_keys ((k1, v1) :: other)) with (k1 :: dict_keys other).
    rewrite elem_of_cons. naive_solver.
Qed.

(** After [d.update(other)] a key of [other] carries the value [other] gives
    it, and every other key keeps the value it had in [d]. *)
Lemma dict_get_update k d other :
  dict_wf other →
  dict_get k (dict_update d other)
  = match dict_get k other with Some v => Some v | None => dict_get k d end.
Proof.
  unfold dict_update, dict_wf, dict_keys. revert d.
  induction other as [|[k1 v1] other IH]; simpl; intros d Hwf; [done|].
  apply NoDup_cons in Hwf as [Hk1 Hwf].
  rewrite IH by done. rewrite dict_get_setitem.
  case_decide; subst; [|done].
  apply dict_get_None in Hk1. by rewrite Hk1.
Qed.

Lemma dict_wf_unpack3 (a b c : list (string * V)) : dict_wf (dict_unpack3 a b c).
Proof.
  unfold dict_unpack3. do 3 apply dict_wf_update.
  unfold dict_wf, dict_keys. simpl. apply NoDup_nil_2.
Qed.

Lemma dict_keys_unpack3 k (a b c : list (string * V)) :
  k ∈ dict_keys (dict_unpack3 a b c)
  ↔ k ∈ dict_keys a ∨ k ∈ dict_keys b ∨ k ∈ dict_keys c.
Proof.
  unfold dict_unpack3. rewrite !dict_keys_update.
  change (dict_keys (@nil (string * V))) with (@nil string).
  rewrite elem_of_nil. naive_solver.
Qed.

Lemma dict_get_unpack3 k (a b c : list (string * V)) :
  dict_wf a → dict_wf b → dict_wf c →
  dict_get k (dict_unpack3 a b c)
  = match dict_get k c with
    | Some v => Some v
    | None => match dict_get k b with Some v => Some v | None => dict_get k a end
    end.
Proof.
  intros Ha Hb Hc. unfold dict_unpack3.
  rewrite !dict_get_update by done. simpl.
  by destruct (dict_get k c), (dict_get k b), (dict_get k a).
Qed.

End DictFacts.

(** ** Tables *)

Section FrameFacts.
Context {V : Type}.
Implicit Types (data : list (list (string * V))) (cols ks : list string).

Lemma add_columns_elem c cols ks : c ∈ add_columns cols ks ↔ c ∈ cols ∨ c ∈ ks.
Proof.
  unfold add_columns. revert cols.
  induction ks as [|k ks IH]; simpl; intros cols.
  - rewrite elem_of_nil. naive_solver.
  - rewrite IH, elem_of_cons. case_decide.
    + naive_solver.
    + rewrite elem_of_app, list_elem_of_singleton. naive_solver.
Qed.

Lemma add_columns_NoDup cols ks : NoDup cols → NoDup (add_columns cols ks).
Proof.
  unfold add_columns. revert cols.
  induction ks as [|k ks IH]; simpl; intros cols Hnd; [done|].
  apply IH. case_decide; [done|].
  apply NoDup_app. split_and!; [done| |apply NoDup_singleton].
  intros x Hx ->%list_elem_of_singleton. done.
Qed.

Lemma fold_columns_elem c data cols :
  c ∈ fold_left (fun acc d => add_columns acc (dict_keys d)) data cols
  ↔ c ∈ cols ∨ ∃ d, d ∈ data ∧ c ∈ dict_keys d.
Proof.
  revert cols. induction data as [|d data IH]; simpl; intros cols.
  - split; [by left|]. intros [?|(d & Hd & _)]; [done|]. by apply elem_of_nil in Hd.
  - rewrite IH, add_columns_elem. split.
    + intros [[?|?]|(d' & ? & ?)]; [by left|right..].
      * exists d. split; [apply list_elem_of_here|done].
      * exists d'. split; [by apply list_elem_of_further|done].
    + intros [?|(d' & [->|Hd']%elem_of_cons & ?)]; [by left; left|by left; right|].
      right. by exists d'.
Qed.

Lemma fold_columns_NoDup data cols :
  NoDup cols → NoDup (fold_left (fun acc d => add_columns acc (dict_keys d)) data cols).
Proof.
  revert cols. induction data as [|d data IH]; simpl; intros cols Hnd; [done|].
  by apply IH, add_columns_NoDup.
Qed.

(** The columns of [pd.DataFrame(data)] are the keys of the dicts. *)
Lemma frame_columns_elem c data :
  c ∈ frame_columns data ↔ ∃ d, d ∈ data ∧ c ∈ dict_keys d.
Proof.
  unfold frame_columns. rewrite fold_columns_elem, elem_of_nil. naive_solver.
Qed.

Lemma frame_columns_NoDup data : NoDup (frame_columns data).
Proof. apply fold_columns_NoDup, NoDup_nil_2. Qed.

Lemma frame_row_labels cols (d : list (string * V)) : (frame_row cols d).*1 = cols.
Proof.
  unfold frame_row. induction cols as [|c cols IH]; [done|]. csimpl. by f_equal.
Qed.

(** Leaving a column out of a row is building the row without it. *)
Lemma frame_row_filter label cols (d : list (string * V)) :
  filter (fun p : string * option V => p.1 ≠ label) (frame_row cols d)
  = frame_row (filter (fun c => c ≠ label) cols) d.
Proof.
  unfold frame_row. induction cols as [|c cols IH]; [done|].
  csimpl. rewrite !filter_cons. csimpl. rewrite IH. by case_decide.
Qed.

Lemma dict_get_frame_row c cols (d : list (string * V)) :
  dict_get c (frame_row cols d) = if decide (c ∈ cols) then Some (dict_get c d) else None.
Proof.
  unfold frame_row. induction cols as [|c0 cols IH]; csimpl.
  - destruct (decide (c ∈ [])) as [Hin|]; [by apply elem_of_nil in Hin|done].
  - rewrite IH. destruct (decide (c = c0)) as [->|Hne].
    + rewrite decide_True; [done|apply list_elem_of_here].
    + destruct (decide (c ∈ cols)) as [Hin|Hin].
      * rewrite decide_True; [done|by apply list_elem_of_further].
      * rewrite decide_False; [done|]. rewrite elem_of_cons. naive_solver.
Qed.

(** [drop] returns exactly when the label is a column, and then the table
    is the one without that column. *)
Lemma drop_Ok label (df df' : DataFrame V) :
  drop label df = Ok df'
  ↔ label ∈ columns df
    ∧ df' = {| columns := filter (fun c => c ≠ label) (columns df);
               rows := filter (fun p => p.1 ≠ label) <$> rows df |}.
Proof.
  unfold drop. case_decide; split; try naive_solver.
Qed.

(** [df.head()] shows the table as it is when it has at most five rows. *)
Lemma head_short (df : DataFrame V) : length (rows df) ≤ 5 → rows (head df) = rows df.
Proof. intros Hlen. unfold head. simpl. by apply take_ge. Qed.

Lemma drop_Raise label (df : DataFrame V) e :
  drop label df = Raise e ↔ (label ∉ columns df) ∧ e = KeyError label.
Proof.
  unfold drop. case_decide; split; try naive_solver.
Qed.

End FrameFacts.

(** ** The result cell *)

Section AggregationFacts.
Context {V : Type}.
Implicit Types (recs : list (recommendation V)) (x : recommendation V).

Lemma flatten_record_keys c x :
  c ∈ dict_keys (flatten_record x) ↔ c ∈ record_keys x.
Proof.
  unfold flatten_record, record_keys.
  rewrite dict_keys_unpack3, !elem_of_app. done.
Qed.

Lemma flatten_data_columns c recs :
  c ∈ frame_columns (flatten_data recs) ↔ ∃ x, x ∈ recs ∧ c ∈ record_keys x.
Proof.
  rewrite frame_columns_elem. unfold flatten_data. split.
  - intros (d & (x & -> & Hx)%list_elem_of_fmap & Hc).
    exists x. by rewrite <- flatten_record_keys.
  - intros (x & Hx & Hc). exists (flatten_record x).
    split; [by apply list_elem_of_fmap_2|by apply flatten_record_keys].
Qed.

Lemma flatten_table_Ok recs df :
  flatten_table recs = Ok df
  ↔ (∃ x, x ∈ recs ∧ "VariantName" ∈ record_keys x) ∧ df = flattened recs.
Proof.
  unfold flatten_table. rewrite drop_Ok.
  unfold from_records. cbn [columns rows]. rewrite flatten_data_columns.
  unfold flattened, flatten_data. rewrite <- !list_fmap_compose.
  assert ((filter (fun p : string * option V => p.1 ≠ "VariantName")
             ∘ frame_row (frame_columns (flatten_record <$> recs)) ∘ flatten_record)
          <$> recs
          = (fun x => frame_row (filter (fun c => c ≠ "VariantName")
                                   (frame_columns (flatten_record <$> recs)))
                        (flatten_record x)) <$> recs) as ->; [|done].
  apply list_fmap_ext. intros i x _. simpl. apply frame_row_filter.
Qed.

Lemma flatten_table_Raise recs e :
  flatten_table recs = Raise e
  ↔ (∀ x, x ∈ recs → "VariantName" ∉ record_keys x) ∧ e = KeyError "VariantName".
Proof.
  unfold flatten_table. rewrite drop_Raise.
  unfold from_records. cbn [columns rows]. rewrite flatten_data_columns. naive_solver.
Qed.

End AggregationFacts.

Section AggregationClaims.
Context {V : Type}.
Implicit Types (recs : list (recommendation V)) (x : recommendation V).

Lemma flattened_length recs : length (rows (flattened recs)) = length recs.
Proof. unfold flattened. cbn [rows]. apply length_fmap. Qed.

Lemma flattened_row recs i :
  rows (flattened recs) !! i
  = (fun x => frame_row (columns (flattened recs)) (flatten_record x)) <$> recs !! i.
Proof. unfold flattened. cbn [rows columns]. apply list_lookup_fmap. Qed.

Lemma flattened_columns c recs :
  c ∈ columns (flattened recs) ↔ c ≠ "VariantName" ∧ ∃ x, x ∈ recs ∧ c ∈ record_keys x.
Proof.
  unfold flattened. cbn [columns].
  rewrite list_elem_of_filter, flatten_data_columns. done.
Qed.

Lemma flattened_cell recs i x c :
  recs !! i = Some x →
  cell (flattened recs) i c
  = if decide (c ∈ columns (flattened recs))
    then Some (dict_get c (flatten_record x)) else None.
Proof.
  intros Hi. unfold cell. rewrite flattened_row, Hi. simpl.
  apply dict_get_frame_row.
Qed.

Lemma disjoint_keys_wf x :
  disjoint_keys x →
  dict_wf (EndpointConfiguration x) ∧ dict_wf (ModelConfiguration x) ∧ dict_wf (Metrics x).
Proof.
  unfold disjoint_keys, record_keys, dict_wf.
  rewrite !NoDup_app. naive_solver.
Qed.

(** With disjoint keys nothing is overridden: a value of any sub-record is
    the value of the merged row. *)
Lemma flatten_record_disjoint x c v :
  disjoint_keys x →
  dict_get c (EndpointConfiguration x) = Some v
  ∨ dict_get c (ModelConfiguration x) = Some v
  ∨ dict_get c (Metrics x) = Some v →
  dict_get c (flatten_record x) = Some v.
Proof.
  intros Hdis Hv. destruct (disjoint_keys_wf x Hdis) as (He & Hm & Hx).
  unfold flatten_record. rewrite dict_get_unpack3 by done.
  unfold disjoint_keys, record_keys in Hdis.
  apply NoDup_app in Hdis as (_ & Hem & Hdis).
  apply NoDup_app in Hdis as (_ & Hmx & _).
  destruct Hv as [Hv|[Hv|Hv]].
  - assert (c ∈ dict_keys (EndpointConfiguration x)) as Hin
      by (apply dict_get_is_Some; eauto).
    apply Hem in Hin. apply not_elem_of_app in Hin as [Hnm Hnx].
    apply dict_get_None in Hnm, Hnx. by rewrite Hnx, Hnm.
  - assert (c ∈ dict_keys (ModelConfiguration x)) as Hin
      by (apply dict_get_is_Some; eauto).
    apply Hmx, dict_get_None in Hin. by rewrite Hin, Hv.
  - by rewrite Hv.
Qed.

(** C1, as amended. For a non-empty list of recommendation records whose
    three sub-records have pairwise disjoint keys, and in which some record
    has the key [VariantName], the result cell produces a table with one row
    per record, each row having one cell per column; the columns are the keys
    of the sub-records of all records except [VariantName], and a cell holds the
    value its record gives to the column. *)
Theorem flatten_table_union_of_keys recs :
  recs ≠ [] →
  Forall disjoint_keys recs →
  Exists (fun x => "VariantName" ∈ record_keys x) recs →
  ∃ df, flatten_table recs = Ok df
    ∧ length (rows df) = length recs
    ∧ NoDup (columns df)
    ∧ (∀ row, row ∈ rows df → row.*1 = columns df)
    ∧ (∀ c, c ∈ columns df ↔ c ≠ "VariantName" ∧ ∃ x, x ∈ recs ∧ c ∈ record_keys x)
    ∧ (∀ i x c v, recs !! i = Some x → c ≠ "VariantName" →
         dict_get c (EndpointConfiguration x) = Some v
         ∨ dict_get c (ModelConfiguration x) = Some v
         ∨ dict_get c (Metrics x) = Some v →
         cell df i c = Some (Some v)).
Proof.
  intros _ Hdis Hvar. exists (flattened recs). split_and!.
  - rewrite flatten_table_Ok. split; [|done]. by apply Exists_exists in Hvar.
  - apply flattened_length.
  - unfold flattened. cbn [columns]. apply NoDup_filter, frame_columns_NoDup.
  - intros row Hrow. apply list_elem_of_lookup in Hrow as [i Hi].
    rewrite flattened_row in Hi. apply fmap_Some in Hi as (x & _ & ->).
    apply frame_row_labels.
  - intros c. apply flattened_columns.
  - intros i x c v Hi Hc Hv.
    assert (x ∈ recs) as Hx by (by apply list_elem_of_lookup_2 in Hi).
    rewrite Forall_forall in Hdis.
    rewrite (flattened_cell recs i x c Hi), decide_True.
    + by rewrite (flatten_record_disjoint x c v (Hdis x Hx) Hv).
    + apply flattened_columns. split; [done|]. exists x. split; [done|].
      unfold record_keys. rewrite !elem_of_app, <- !dict_get_is_Some.
      destruct Hv as [Hv|[Hv|Hv]]; rewrite Hv; eauto.
Qed.

(** C2. On an empty recommendation list the result cell does not return an
    empty table: the table built from no rows has no columns, and dropping
    [VariantName] from it raises [KeyError]. *)
Theorem flatten_table_empty_raises :
  flatten_table (V := V) [] = Raise (KeyError "VariantName")
  ∧ ∀ status reason,
      aggregation_cell (V := V)
        {| Status := status; FailureReason := reason; InferenceRecommendations := Some [] |}
      = Raise (KeyError "VariantName").
Proof. split; [reflexivity|intros; reflexivity]. Qed.

(** C8. The result cell neither sorts nor filters: the list of merged rows
    has the length of the recommendation list, with the row of record [i] at
    position [i]; and whenever the cell leaves a table, the table has one row
    per record, row [i] being built from record [i] alone over the columns of
    the table. *)
Theorem flatten_table_keeps_order recs :
  length (flatten_data recs) = length recs
  ∧ (∀ i, flatten_data recs !! i = flatten_record <$> recs !! i)
  ∧ (∀ df, flatten_table recs = Ok df →
       length (rows df) = length recs
       ∧ ∀ i, rows df !! i
              = (fun x => frame_row (columns df) (flatten_record x)) <$> recs !! i).
Proof.
  split_and!.
  - apply length_fmap.
  - intros i. apply list_lookup_fmap.
  - intros df [_ ->]%flatten_table_Ok. split.
    + apply flattened_length.
    + apply flattened_row.
Qed.

(** C10. The merge is right-biased: the merged row gives a key the value of
    the metrics sub-record when the key is there, otherwise that of the model
    configuration when it is there, and only otherwise that of the endpoint
    configuration; the table, when the cell leaves one, shows that value in
    the column of the key. *)
Theorem flatten_record_right_biased x k :
  dict_wf (EndpointConfiguration x) →
  dict_wf (ModelConfiguration x) →
  dict_wf (Metrics x) →
  let merged :=
    match dict_get k (Metrics x) with
    | Some v => Some v
    | None =>
        match dict_get k (ModelConfiguration x) with
        | Some v => Some v
        | None => dict_get k (EndpointConfiguration x)
        end
    end in
  dict_get k (flatten_record x) = merged
  ∧ ∀ recs df i,
      flatten_table recs = Ok df → recs !! i = Some x → k ∈ columns df →
      cell df i k = Some merged.
Proof.
  intros He Hm Hx merged.
  assert (dict_get k (flatten_record x) = merged) as Hmerged
    by (unfold flatten_record; by rewrite dict_get_unpack3).
  split; [done|].
  intros recs df i [_ ->]%flatten_table_Ok Hi Hk.
  by rewrite (flattened_cell recs i x k Hi), decide_True, Hmerged.
Qed.

End AggregationClaims.

(** ** The polling loop *)

Section PollingFacts.
Context {Remote V : Type} `{!SageMakerClient Remote V}.
Implicit Types (s : Remote) (log : list event) (job : job_record V).

Lemma response_0 name s :
  response 0 name s = (describe_inference_recommendations_job name s).1.
Proof. done. Qed.

Lemma response_S n name s :
  response (S n) name s
  = response n name (describe_inference_recommendations_job name s).2.
Proof. done. Qed.

Lemma first_terminal_at_S n name s :
  first_terminal_at (S n) name s →
  first_terminal_at n name (describe_inference_recommendations_job name s).2.
Proof.
  intros [Hn Hbefore]. split; [done|].
  intros k Hk. apply (Hbefore (S k)). lia.
Qed.

(** A pass that finds a terminal status ends the loop with the record just
    queried; [n] passes come before it when the [n]-th answer is the first
    terminal one. *)
Lemma poll_loop_finished n name : ∀ fuel s log,
  n < fuel → first_terminal_at n name s →
  poll_loop fuel name s log
  = Finished (response n name s) (state_before (S n) name s)
      (log ++ waiting_log n name ++ [Describe name]).
Proof.
  induction n as [|n IH]; intros fuel s log Hfuel Hfirst;
    (destruct fuel as [|fuel]; [lia|]); simpl; unfold poll_body.
  - destruct Hfirst as [Hterm _]. unfold terminal_at in Hterm.
    rewrite response_0 in Hterm |- *.
    destruct (describe_inference_recommendations_job name s) as [job s'].
    simpl in *. by rewrite bool_decide_eq_true_2.
  - assert (¬ terminal_at 0 name s) as Hnot by (apply Hfirst; lia).
    apply first_terminal_at_S in Hfirst. unfold terminal_at in Hnot.
    rewrite response_0 in Hnot. rewrite response_S.
    destruct (describe_inference_recommendations_job name s) as [job s'].
    simpl in *. rewrite bool_decide_eq_false_2 by done.
    rewrite (IH fuel s' _) by (done || lia).
    by rewrite <- !app_assoc.
Qed.

(** As long as no answer is terminal the loop goes on, one describe call,
    one printed line and one sleep per pass. *)
Lemma poll_loop_still fuel name : ∀ s log,
  (∀ k, k < fuel → ¬ terminal_at k name s) →
  poll_loop fuel name s log
  = StillPolling (state_before fuel name s) (log ++ waiting_log fuel name).
Proof.
  induction fuel as [|fuel IH]; intros s log Hnone; simpl.
  - by rewrite app_nil_r.
  - unfold poll_body.
    assert (¬ terminal_at 0 name s) as Hnot by (apply Hnone; lia).
    unfold terminal_at in Hnot. rewrite response_0 in Hnot.
    assert (∀ k, k < fuel →
      ¬ terminal_at k name (describe_inference_recommendations_job name s).2) as Hnext.
    { intros k Hk. apply (Hnone (S k)). lia. }
    destruct (describe_inference_recommendations_job name s) as [job s'].
    simpl in *. rewrite bool_decide_eq_false_2 by done.
    rewrite IH by done. by rewrite <- app_assoc.
Qed.

(** Within any number of answers either one is the first terminal one or
    none is terminal. *)
Lemma first_terminal_or_none fuel name s :
  (∃ n, n < fuel ∧ first_terminal_at n name s)
  ∨ (∀ k, k < fuel → ¬ terminal_at k name s).
Proof.
  induction fuel as [|fuel [(n & Hn & Hfirst)|Hnone]].
  - right. intros k Hk. lia.
  - left. exists n. split; [lia|done].
  - destruct (decide (terminal_at fuel name s)) as [Hterm|Hnot].
    + left. exists fuel. split; [lia|]. by split.
    + right. intros k Hk. destruct (decide (k = fuel)) as [->|]; [done|].
      apply Hnone. lia.
Qed.

Lemma first_terminal_at_unique n m name s :
  first_terminal_at n name s → first_terminal_at m name s → n = m.
Proof.
  intros [Hn Hbn] [Hm Hbm].
  destruct (lt_eq_lt_dec n m) as [[Hlt| ->]|Hlt]; [|done|].
  - by apply Hbm in Hlt.
  - by apply Hbn in Hlt.
Qed.

Lemma describe_count_app log1 log2 :
  describe_count (log1 ++ log2) = describe_count log1 + describe_count log2.
Proof.
  induction log1 as [|[]] ; simpl; lia.
Qed.

Lemma describe_count_waiting n name : describe_count (waiting_log n name) = n.
Proof. induction n; simpl; lia. Qed.

Lemma slept_waiting n name : slept (waiting_log n name) = (300 * Z.of_nat n)%Z.
Proof. induction n; simpl slept; lia. Qed.

Lemma waiting_log_lookup n name i :
  i < n →
  waiting_log n name !! (3 * i) = Some (Describe name)
  ∧ waiting_log n name !! (3 * i + 1) = Some (Print "In progress")
  ∧ waiting_log n name !! (3 * i + 2) = Some (Sleep 300).
Proof.
  revert i. induction n as [|n IH]; intros i Hi; [lia|].
  destruct i as [|i]; [done|].
  replace (3 * S i) with (S (S (S (3 * i)))) by lia.
  simpl. apply IH. lia.
Qed.

(** C4. The polling loop ends exactly when an answer to a describe call is
    the first to carry one of the statuses COMPLETED, STOPPED, FAILED: it
    then ends on that pass with the record of that call, and it makes one
    describe call in each pass, so that the status tested in pass [n] is the
    one answered to call [n], not one kept from an earlier pass. *)
Theorem poll_loop_ends_at_first_terminal fuel name s job s' log :
  poll_loop fuel name s [] = Finished job s' log
  ↔ ∃ n, n < fuel
      ∧ first_terminal_at n name s
      ∧ job = response n name s
      ∧ s' = state_before (S n) name s
      ∧ log = waiting_log n name ++ [Describe name]
      ∧ describe_count log = S n.
Proof.
  split.
  - intros Hloop.
    destruct (first_terminal_or_none fuel name s) as [(n & Hn & Hfirst)|Hnone].
    + rewrite (poll_loop_finished n name fuel s [] Hn Hfirst) in Hloop.
      injection Hloop as <- <- <-. exists n. split_and!; try done.
      rewrite describe_count_app, describe_count_waiting. simpl. lia.
    + by rewrite (poll_loop_still fuel name s [] Hnone) in Hloop.
  - intros (n & Hn & Hfirst & -> & -> & -> & _).
    by rewrite (poll_loop_finished n name fuel s [] Hn Hfirst).
Qed.

(** C5. When no answer ever carries a terminal status the loop never ends:
    after any number of passes it is still polling, each pass having made
    one describe call followed by a sleep of 300 seconds, the same in every
    pass, so that the time slept grows without bound. *)
Theorem poll_loop_blocks_forever name s :
  (∀ n, ¬ terminal_at n name s) →
  ∀ fuel,
    poll_loop fuel name s [] = StillPolling (state_before fuel name s) (waiting_log fuel name)
    ∧ (∀ i, i < fuel →
         waiting_log fuel name !! (3 * i) = Some (Describe name)
         ∧ waiting_log fuel name !! (3 * i + 2) = Some (Sleep 300))
    ∧ describe_count (waiting_log fuel name) = fuel
    ∧ slept (waiting_log fuel name) = (300 * Z.of_nat fuel)%Z.
Proof.
  intros Hnever fuel. split_and!.
  - by rewrite (poll_loop_still fuel name s []) by (intros k _; apply Hnever).
  - intros i Hi. destruct (waiting_log_lookup fuel name i Hi) as (? & _ & ?). done.
  - apply describe_count_waiting.
  - apply slept_waiting.
Qed.

(** C3, as amended. When the status observed at the end of the loop is
    FAILED, the cell prints the failure line and the failure reason of the
    record as it is, whatever the text, and the flow goes on to the
    aggregation cell, which runs on the record whatever its status; only a
    record without a failure reason stops the flow, by the [KeyError] of
    the lookup. The completion line is not printed. *)
Theorem failed_status_is_reported_not_gated fuel kind name s job s' log :
  poll_loop fuel name s [] = Finished job s' log →
  Status job = "FAILED" →
  results_flow fuel kind name s
  = match FailureReason job with
    | Some reason =>
        Aggregated
          (log ++ [Print (failed_line kind); Print (reason_label kind +:+ reason)])
          job (aggregation_cell job)
    | None => Stopped (log ++ [Print (failed_line kind)]) (KeyError "FailureReason")
    end.
Proof.
  intros Hloop Hfailed. unfold results_flow, status_report.
  rewrite Hloop, decide_True by done. by destruct (FailureReason job).
Qed.

End PollingFacts.

(** ** Job names *)

Section NameFacts.
Implicit Types (s t : string) (d : Decimal.uint).

Lemma chars_app s t :
  list_ascii_of_string (s +:+ t) = list_ascii_of_string s ++ list_ascii_of_string t.
Proof. induction s as [|c s IH]; simpl; [done|]. by rewrite IH. Qed.

Lemma chars_inj s t : list_ascii_of_string s = list_ascii_of_string t → s = t.
Proof.
  intros Heq. rewrite <- (string_of_list_ascii_of_string s), Heq.
  apply string_of_list_ascii_of_string.
Qed.

Lemma chars_length s : length (list_ascii_of_string s) = String.length s.
Proof. induction s as [|c s IH]; simpl; [done|]. by rewrite IH. Qed.

(** Decimal digits only: a character that is no digit does not occur in the
    text of a number. *)
Lemma str_uint_digits d (c : ascii) :
  c ∉ list_ascii_of_string "0123456789" →
  c ∉ list_ascii_of_string (NilEmpty.string_of_uint d).
Proof.
  intros Hc. induction d; simpl; [apply not_elem_of_nil|..];
    (apply not_elem_of_cons; split; [|done]);
    intros ->; apply Hc; simpl; set_solver.
Qed.

Lemma str_uint_no_dash d :
  "-"%char ∉ list_ascii_of_string (NilEmpty.string_of_uint d).
Proof. apply str_uint_digits. by apply (bool_decide_unpack _). Qed.

(** The text of an integer is its digits, after a minus sign when it is
    negative. *)
Lemma str_int_shape (z : Z) :
  ∃ digits, ("-"%char ∉ digits)
    ∧ list_ascii_of_string (str_int z)
      = (if bool_decide (z < 0)%Z then ["-"%char] else []) ++ digits.
Proof.
  unfold str_int. destruct z as [|p|p]; simpl.
  - exists ["0"%char]. split; [|done].
    apply not_elem_of_cons. split; [discriminate|apply not_elem_of_nil].
  - exists (list_ascii_of_string (NilEmpty.string_of_uint (Pos.to_uint p))).
    split; [apply str_uint_no_dash|done].
  - exists (list_ascii_of_string (NilEmpty.string_of_uint (Pos.to_uint p))).
    split; [apply str_uint_no_dash|done].
Qed.

Lemma str_int_inj (z1 z2 : Z) : str_int z1 = str_int z2 → z1 = z2.
Proof.
  unfold str_int. intros Heq. apply DecimalZ.to_int_inj.
  assert (Some (Z.to_int z1) = Some (Z.to_int z2)) as Hsome; [|by injection Hsome].
  by rewrite <- !NilEmpty.isi, Heq.
Qed.

Lemma dash_twice (front digits : list ascii) :
  front ++ "-"%char :: "-"%char :: digits = (front ++ ["-"%char]) ++ "-"%char :: digits.
Proof. by rewrite <- app_assoc. Qed.



End NameFacts.

Section StampFacts.





Lemma zero_pad_2_length n : n < 100 → String.length (zero_pad 2 n) = 2.
Proof.
  intros Hn.
  assert (Forall (fun n => String.length (zero_pad 2 n) = 2) (seq 0 100)) as Hall.
  { apply (bool_decide_unpack _). vm_compute. exact I. }
  rewrite Forall_forall in Hall. apply Hall, elem_of_seq. lia.
Qed.

Lemma chars_zero_pad_2 n :
  n < 100 → ∃ a b, list_ascii_of_string (zero_pad 2 n) = [a; b].
Proof.
  intros Hn%zero_pad_2_length. rewrite <- chars_length in Hn.
  destruct (list_ascii_of_string (zero_pad 2 n)) as [|a [|b [|c l]]]; try done.
  by exists a, b.
Qed.








End StampFacts.

(** ** The metric expression *)

Section RegexFacts.
Implicit Types (r a : regex) (s t : string) (caps : list string)
  (k : string → list string → option (list string)) (p : ascii → bool).

Lemma rmatch_star a s caps k :
  rmatch (Star a) s caps k = star_iter a k (String.length s) s caps.
Proof. reflexivity. Qed.

Lemma rmatch_cat a b s caps k :
  rmatch (Cat a b) s caps k = rmatch a s caps (fun s' caps' => rmatch b s' caps' k).
Proof. reflexivity. Qed.

Lemma rmatch_group a s caps k :
  rmatch (Group a) s caps k
  = rmatch a s caps (fun s' caps' => k s' (caps' ++ [consumed s s'])).
Proof. reflexivity. Qed.

Lemma rmatch_set items c s caps k :
  rmatch (Set_ items) (String c s) caps k = if in_class c items then k s caps else None.
Proof. reflexivity. Qed.

Lemma rmatch_literal t s caps k : rmatch (literal t) (t +:+ s) caps k = k s caps.
Proof.
  revert caps k. induction t as [|c t IH]; intros caps k; [done|].
  change (String c t +:+ s) with (String c (t +:+ s)).
  change (literal (String c t)) with (Cat (Lit c) (literal t)).
  rewrite rmatch_cat. simpl. rewrite decide_True by done. apply IH.
Qed.

Lemma skip_while_length p s : String.length (skip_while p s) ≤ String.length s.
Proof. induction s as [|c s IH]; simpl; [done|]. destruct (p c); simpl; lia. Qed.

(** What [take_while] takes is what lies before what [skip_while] leaves. *)
Lemma consumed_skip_while p s : consumed s (skip_while p s) = take_while p s.
Proof.
  unfold consumed. induction s as [|c s IH]; simpl; [done|].
  destruct (p c); simpl.
  - pose proof (skip_while_length p s).
    replace (S (String.length s) - String.length (skip_while p s))
      with (S (String.length s - String.length (skip_while p s))) by lia.
    simpl. by rewrite IH.
  - by rewrite Nat.sub_diag.
Qed.

(** Greedy repetition of an expression that matches exactly the single
    characters satisfying [p]: the loop takes the whole leading run of such
    characters when the continuation accepts what follows the run. *)
Lemma star_iter_chars a p k :
  (∀ c s caps k', rmatch a (String c s) caps k' = if p c then k' s caps else None) →
  (∀ caps k', rmatch a EmptyString caps k' = None) →
  ∀ n s caps m,
    String.length s ≤ n →
    k (skip_while p s) caps = Some m →
    star_iter a k n s caps = Some m.
Proof.
  intros Hchar Hnil. induction n as [|n IH]; intros s caps m Hlen Hk.
  - destruct s; [done|simpl in Hlen; lia].
  - destruct s as [|c s]; simpl.
    + by rewrite Hnil.
    + rewrite Hchar. simpl in Hk, Hlen. destruct (p c); [|by rewrite Hk].
      rewrite (proj2 (Nat.ltb_lt _ _)) by lia.
      rewrite (IH s caps m) by (done || lia). done.
Qed.

Lemma in_class_digits_dot c :
  in_class c digits_dot
  = ((N_of_ascii "0" <=? N_of_ascii c)%N && (N_of_ascii c <=? N_of_ascii "9")%N)
    || bool_decide (c = "."%char).
Proof. unfold in_class, digits_dot. simpl. by rewrite orb_false_r. Qed.

Lemma skip_while_not_newline s :
  newline ∉ list_ascii_of_string s →
  skip_while (fun c => bool_decide (c ≠ newline)) s = EmptyString.
Proof.
  induction s as [|c s IH]; simpl; [done|].
  intros [Hc Hs]%not_elem_of_cons.
  rewrite bool_decide_eq_true_2 by done. by apply IH.
Qed.

Lemma skip_while_suffix p s :
  ∃ front, list_ascii_of_string s = front ++ list_ascii_of_string (skip_while p s).
Proof.
  induction s as [|c s [front IH]]; simpl; [by exists []|].
  destruct (p c); [|by exists []].
  exists (c :: front). simpl. by rewrite IH.
Qed.

(** [.*$] accepts whatever is left of a line. *)
Lemma rmatch_rest_of_line s caps :
  newline ∉ list_ascii_of_string s →
  rmatch (Cat (Star Dot) Eol) s caps (fun _ caps' => Some caps') = Some caps.
Proof.
  intros Hs. rewrite rmatch_cat, rmatch_star.
  apply (star_iter_chars Dot (fun c => bool_decide (c ≠ newline))); [| |done|].
  - intros c t caps' k'. simpl. destruct (decide (c = newline)) as [Hc|Hc].
    + by rewrite bool_decide_eq_false_2 by (by intros ?).
    + by rewrite bool_decide_eq_true_2.
  - done.
  - by rewrite skip_while_not_newline.
Qed.

(** The expression found at the start of a line that begins with the
    label and a digit or dot: the group is the leading run of digits and dots
    of what follows the label. *)
Lemma median_AE_match_here value :
  starts_in_class digits_dot value = true →
  newline ∉ list_ascii_of_string value →
  match_here median_AE_regex ("AE-at-50th-percentile: " +:+ value)
  = Some [take_while (fun c => in_class c digits_dot) value].
Proof.
  intros Hfirst Hline. unfold match_here, median_AE_regex.
  rewrite rmatch_cat, rmatch_literal, rmatch_cat, rmatch_group.
  unfold Plus. rewrite rmatch_cat.
  destruct value as [|c rest]; [done|].
  change (in_class c digits_dot = true) in Hfirst.
  rewrite rmatch_set, Hfirst, rmatch_star.
  apply (star_iter_chars (Set_ digits_dot) (fun c => in_class c digits_dot));
    [done|done|done|].
  pose proof (consumed_skip_while (fun c => in_class c digits_dot) (String c rest)) as Hrun.
  cbn [skip_while take_while] in Hrun. rewrite Hfirst in Hrun.
  cbn [take_while]. rewrite Hfirst, Hrun. simpl app.
  apply rmatch_rest_of_line.
  destruct (skip_while_suffix (fun c => in_class c digits_dot) rest) as [front Hfront].
  simpl in Hline. rewrite Hfront in Hline.
  apply not_elem_of_cons in Hline as [_ Hline].
  by apply not_elem_of_app in Hline as [_ Hline].
Qed.

(** C6, as amended. When the text of the 50th percentile starts with a
    digit or a dot and has no line break, as the text of every finite
    value does, the line printed for it is [AE-at-50th-percentile: ]
    followed by that text, the declared expression is found in the line, and
    the metric median-AE is read off it with the leading run of digits and
    dots of the text as its value. *)
Theorem median_AE_line_is_matched (percentile : nat → string) :
  starts_in_class digits_dot (percentile 50) = true →
  newline ∉ list_ascii_of_string (percentile 50) →
  let line := "AE-at-50th-percentile: " +:+ percentile 50 in
  let value := take_while (fun c => in_class c digits_dot) (percentile 50) in
  percentile_lines percentile !! 1 = Some line
  ∧ search median_AE_regex line = Some [value]
  ∧ extract_metrics metric_definitions line = [("median-AE", value)].
Proof.
  intros Hfirst Hline line value.
  assert (search median_AE_regex line = Some [value]) as Hsearch.
  { unfold line, value. pose proof (median_AE_match_here _ Hfirst Hline) as Hhere.
    destruct (percentile 50) as [|c rest]; [done|].
    change ("AE-at-50th-percentile: " +:+ String c rest)
      with (String "A" ("E-at-50th-percentile: " +:+ String c rest)) in *.
    unfold search. by rewrite Hhere. }
  split_and!; [done|done|].
  change (extract_metrics metric_definitions line)
    with (match
            match search median_AE_regex line with
            | Some (v :: _) => Some ("median-AE", v)
            | _ => None
            end
          with
          | Some y => [y]
          | None => []
          end).
  by rewrite Hsearch.
Qed.

End RegexFacts.

(** ** Model persistence *)

Section PersistenceFacts.
Context {Model : Type} `{!Joblib Model}.

Lemma joblib_load_dump (model : Model) path fs :
  joblib_load path (joblib_dump model path fs) = Ok model.
Proof.
  unfold joblib_load, joblib_dump.
  by rewrite lookup_insert_eq, unpickle_pickle.
Qed.

(** C9. Loading with [model_fn model_dir] after the training script has
    persisted a model under the same [model_dir] returns that model: both
    sides build the path [model_dir/model.joblib], and [joblib.load] reads
    back what [joblib.dump] wrote there. *)
Theorem model_fn_after_persist_model (model : Model) (model_dir : string)
  (fs : gmap string (list ascii)) :
  model_fn model_dir (persist_model model model_dir fs).1 = Ok model.
Proof. unfold model_fn, persist_model. simpl. apply joblib_load_dump. Qed.

End PersistenceFacts.

(** ** The tuner result cell *)

Section TunerFacts.
Context {Remote V : Type} `{!TunerAnalytics Remote V}.
Implicit Types (s : Remote) (log : list tuner_event).

Lemma tuner_state_before_S n s :
  tuner_state_before (S n) s = (analytics_dataframe (tuner_state_before n s)).2.
Proof.
  revert s. induction n as [|n IH]; intros s; [done|].
  change (tuner_state_before (S (S n)) s)
    with (tuner_state_before (S n) (analytics_dataframe s).2).
  by rewrite IH.
Qed.

Lemma analytics_at k s :
  analytics_dataframe (tuner_state_before k s)
  = (tuner_answer k s, tuner_state_before (S k) s).
Proof.
  unfold tuner_answer. rewrite tuner_state_before_S.
  by destruct (analytics_dataframe (tuner_state_before k s)).
Qed.

Lemma wait_results_0 results s log :
  wait_results 0 results s log
  = if df_empty results then StillWaiting s log else Results results s log.
Proof. reflexivity. Qed.

Lemma wait_results_S fuel results s log :
  wait_results (S fuel) results s log
  = if df_empty results then
      let '(results', s') := analytics_dataframe s in
      wait_results fuel results' s' (log ++ [Wait 1; Analytics])
    else Results results s log.
Proof. reflexivity. Qed.

(** After [k] passes the loop holds answer [k]; it stops at the first answer
    from there on that is not empty. *)
Lemma wait_results_found fuel s0 : ∀ k n,
  k ≤ n → n ≤ k + fuel →
  df_empty (tuner_answer n s0) = false →
  (∀ j, k ≤ j → j < n → df_empty (tuner_answer j s0) = true) →
  wait_results fuel (tuner_answer k s0) (tuner_state_before (S k) s0) (tuner_log k)
  = Results (tuner_answer n s0) (tuner_state_before (S n) s0) (tuner_log n).
Proof.
  induction fuel as [|fuel IH]; intros k n Hkn Hfuel Hn Hbefore.
  - assert (n = k) as -> by lia. by rewrite wait_results_0, Hn.
  - rewrite wait_results_S. destruct (decide (n = k)) as [->|Hne].
    + by rewrite Hn.
    + rewrite Hbefore, analytics_at by lia.
      apply (IH (S k) n); [lia|lia|done|]. intros j ? ?. apply Hbefore; lia.
Qed.

Lemma wait_results_empty fuel s0 : ∀ k,
  (∀ j, k ≤ j → j ≤ k + fuel → df_empty (tuner_answer j s0) = true) →
  wait_results fuel (tuner_answer k s0) (tuner_state_before (S k) s0) (tuner_log k)
  = StillWaiting (tuner_state_before (S (k + fuel)) s0) (tuner_log (k + fuel)).
Proof.
  induction fuel as [|fuel IH]; intros k Hempty.
  - rewrite wait_results_0, Hempty by lia. by rewrite Nat.add_0_r.
  - rewrite wait_results_S, Hempty, analytics_at by lia.
    replace (k + S fuel) with (S k + fuel) by lia.
    apply (IH (S k)). intros j ? ?. apply Hempty; lia.
Qed.

Lemma tuner_results_unfold fuel s :
  tuner_results fuel s
  = wait_results fuel (tuner_answer 0 s) (tuner_state_before 1 s) (tuner_log 0).
Proof.
  unfold tuner_results.
  change (analytics_dataframe s) with (analytics_dataframe (tuner_state_before 0 s)).
  by rewrite analytics_at.
Qed.

Lemma first_results_or_none fuel s :
  (∃ n, n ≤ fuel ∧ first_results_at n s)
  ∨ (∀ j, j ≤ fuel → df_empty (tuner_answer j s) = true).
Proof.
  induction fuel as [|fuel [(n & Hn & Hfirst)|Hnone]].
  - destruct (df_empty (tuner_answer 0 s)) eqn:H0.
    + right. intros j Hj. by replace j with 0 by lia.
    + left. exists 0. split; [lia|]. split; [done|]. intros k Hk. lia.
  - left. exists n. split; [lia|done].
  - destruct (df_empty (tuner_answer (S fuel) s)) eqn:HS.
    + right. intros j Hj. destruct (decide (j = S fuel)) as [->|]; [done|].
      apply Hnone. lia.
    + left. exists (S fuel). split; [lia|]. split; [done|].
      intros k Hk. apply Hnone. lia.
Qed.

Lemma tuner_slept_log n : tuner_slept (tuner_log n) = Z.of_nat n.
Proof.
  assert (∀ l1 l2, tuner_slept (l1 ++ l2) = (tuner_slept l1 + tuner_slept l2)%Z) as Happ.
  { intros l1 l2. induction l1 as [|[] l1 IH]; simpl; lia. }
  induction n as [|n IH]; [done|].
  change (tuner_log (S n)) with (tuner_log n ++ [Wait 1; Analytics]).
  rewrite Happ, IH. simpl. lia.
Qed.

Lemma tuner_log_length n : length (tuner_log n) = 2 * n + 1.
Proof.
  induction n as [|n IH]; [done|].
  change (tuner_log (S n)) with (tuner_log n ++ [Wait 1; Analytics]).
  rewrite length_app, IH. simpl. lia.
Qed.

(** X1. The tuner result cell returns exactly when one of the first [fuel + 1]
    answers is not empty: it returns the first such table, after one query
    per answer and a sleep of one second between two queries. *)
Theorem tuner_results_returns_first_table fuel s results s' log :
  tuner_results fuel s = Results results s' log
  ↔ ∃ n, n ≤ fuel
      ∧ first_results_at n s
      ∧ results = tuner_answer n s
      ∧ s' = tuner_state_before (S n) s
      ∧ log = tuner_log n
      ∧ tuner_slept log = Z.of_nat n.
Proof.
  rewrite tuner_results_unfold. split.
  - intros Hloop.
    destruct (first_results_or_none fuel s) as [(n & Hn & Hne & Hbefore)|Hnone].
    + rewrite (wait_results_found fuel s 0 n) in Hloop; [|lia|lia|done|].
      * injection Hloop as <- <- <-. exists n. split_and!; try done.
        apply tuner_slept_log.
      * intros j _ Hj. by apply Hbefore.
    + rewrite (wait_results_empty fuel s 0) in Hloop; [done|].
      intros j _ Hj. by apply Hnone.
  - intros (n & Hn & [Hne Hbefore] & -> & -> & -> & _).
    apply wait_results_found; [lia|lia|done|]. intros j _ Hj. by apply Hbefore.
Qed.

(** X2. As long as the answers are empty tables the cell goes on waiting, one
    second at a time, without bound. *)
Theorem tuner_results_waits_forever s :
  (∀ n, df_empty (tuner_answer n s) = true) →
  ∀ fuel,
    tuner_results fuel s = StillWaiting (tuner_state_before (S fuel) s) (tuner_log fuel)
    ∧ tuner_slept (tuner_log fuel) = Z.of_nat fuel
    ∧ length (tuner_log fuel) = 2 * fuel + 1.
Proof.
  intros Hempty fuel. split_and!.
  - rewrite tuner_results_unfold.
    rewrite (wait_results_empty fuel s 0); [done|]. intros j _ _. apply Hempty.
  - apply tuner_slept_log.
  - apply tuner_log_length.
Qed.

End TunerFacts.

(** ** More on generated names *)

Section MoreNameFacts.

(** Two texts that end with a letter, a hyphen and a number are different
    when the numbers are. *)
Lemma stamped_inj (front1 front2 : list ascii) (c1 c2 : ascii) (z1 z2 : Z) :
  c1 ≠ "-"%char → c2 ≠ "-"%char →
  (front1 ++ [c1]) ++ "-"%char :: list_ascii_of_string (str_int z1)
  = (front2 ++ [c2]) ++ "-"%char :: list_ascii_of_string (str_int z2) →
  z1 = z2.
Proof.
  intros Hc1 Hc2 Heq. apply str_int_inj, chars_inj.
  destruct (str_int_shape z1) as (d1 & Hd1 & E1).
  destruct (str_int_shape z2) as (d2 & Hd2 & E2).
  rewrite E1, E2 in Heq |- *. clear E1 E2.
  destruct (bool_decide (z1 < 0)%Z), (bool_decide (z2 < 0)%Z); simpl in *.
  - rewrite (dash_twice (front1 ++ [c1])), (dash_twice (front2 ++ [c2])) in Heq.
    by apply not_elem_of_app_cons_inv_r in Heq as (_ & _ & ->).
  - rewrite (dash_twice (front1 ++ [c1])) in Heq.
    apply not_elem_of_app_cons_inv_r in Heq as (Hfront & _ & _); [|done..].
    by apply app_inj_tail in Hfront as [_ <-].
  - rewrite (dash_twice (front2 ++ [c2])) in Heq.
    apply not_elem_of_app_cons_inv_r in Heq as (Hfront & _ & _); [|done..].
    by apply app_inj_tail in Hfront as [_ ->].
  - by apply not_elem_of_app_cons_inv_r in Heq as (_ & _ & ->).
Qed.

(** X3. Model package groups created at different rounded clock readings get
    different names, whatever the framework names. *)
Theorem model_package_group_names_differ (framework1 framework2 : string) (now1 now2 : Z) :
  now1 ≠ now2 →
  model_package_group_name framework1 now1 ≠ model_package_group_name framework2 now2.
Proof.
  intros Hne Heq. apply Hne. apply (f_equal list_ascii_of_string) in Heq.
  unfold model_package_group_name in Heq. rewrite !chars_app in Heq.
  apply (stamped_inj (list_ascii_of_string framework1 ++ list_ascii_of_string "-cpu-model")
           (list_ascii_of_string framework2 ++ list_ascii_of_string "-cpu-model")
           "s" "s"); [discriminate|discriminate|].
  simpl in *. by repeat (rewrite <- app_assoc; simpl).
Qed.

Lemma chars_replace_char (old new : ascii) (s : string) :
  list_ascii_of_string (str_replace_char old new s)
  = (fun c => if decide (c = old) then new else c) <$> list_ascii_of_string s.
Proof. induction s as [|c s IH]; [done|]. simpl. by rewrite IH. Qed.

Lemma str_uint_chars (d : Decimal.uint) (c : ascii) :
  c ∈ list_ascii_of_string (NilEmpty.string_of_uint d) →
  c ∈ list_ascii_of_string "0123456789".
Proof.
  intros Hin. destruct (decide (c ∈ list_ascii_of_string "0123456789")) as [|Hno]; [done|].
  by apply (str_uint_digits d) in Hno.
Qed.

Lemma name_char_digit (c : ascii) :
  c ∈ list_ascii_of_string "0123456789" → name_char c = true.
Proof.
  simpl. rewrite !elem_of_cons, elem_of_nil.
  intros [->|[->|[->|[->|[->|[->|[->|[->|[->|[->|[]]]]]]]]]]]; reflexivity.
Qed.

Lemma str_int_name_chars (z : Z) :
  (0 ≤ z)%Z → Forall (fun c => name_char c = true) (list_ascii_of_string (str_int z)).
Proof.
  intros Hz. apply Forall_forall. intros c Hc. apply name_char_digit.
  unfold str_int in Hc. destruct z as [|p|p]; [|by apply str_uint_chars in Hc|lia].
  simpl in Hc. apply list_elem_of_singleton in Hc as ->. simpl. set_solver.
Qed.

(** X4. The instance type goes into the job name with its dots replaced: when the
    model name is made of letters, digits and hyphens, and the instance type
    of these and dots, both job names are made of letters, digits and hyphens
    only. *)
Theorem job_names_have_no_dot (model_name instance_type : string) (now : Z) :
  Forall (fun c => name_char c = true) (list_ascii_of_string model_name) →
  Forall (fun c => name_char c = true ∨ c = "."%char) (list_ascii_of_string instance_type) →
  (0 ≤ now)%Z →
  Forall (fun c => name_char c = true)
    (list_ascii_of_string (default_job_name model_name now))
  ∧ Forall (fun c => name_char c = true)
      (list_ascii_of_string (advanced_job_name model_name instance_type now))
  ∧ "."%char ∉ list_ascii_of_string (advanced_job_name model_name instance_type now).
Proof.
  intros Hmodel Htype Hnow.
  assert (Forall (fun c => name_char c = true)
            (list_ascii_of_string (advanced_job_name model_name instance_type now)))
    as Hadvanced.
  { unfold advanced_job_name. rewrite !chars_app, chars_replace_char.
    rewrite !Forall_app. split_and!; [done| | | |by apply str_int_name_chars].
    - by repeat constructor.
    - apply Forall_fmap. eapply Forall_impl; [exact Htype|].
      intros c [Hc| ->]; simpl; [|reflexivity].
      destruct (decide (c = "."%char)) as [->|]; [reflexivity|done].
    - by repeat constructor. }
  split_and!; [|done|].
  - unfold default_job_name. rewrite !chars_app, !Forall_app.
    split_and!; [done| |by apply str_int_name_chars]. by repeat constructor.
  - intros Hdot. rewrite Forall_forall in Hadvanced.
    by apply Hadvanced in Hdot.
Qed.

End MoreNameFacts.

(** ** More on the result cell *)

Section MoreAggregationFacts.
Context {V : Type}.
Implicit Types (recs : list (recommendation V)) (x : recommendation V)
  (d other : list (string * V)).

Lemma dict_setitem_fresh k (v : V) d :
  k ∉ dict_keys d → dict_setitem k v d = d ++ [(k, v)].
Proof.
  unfold dict_keys. induction d as [|[k0 v0] d IH]; csimpl; [done|].
  intros [Hne Hd]%not_elem_of_cons. rewrite decide_False by done. by rewrite IH.
Qed.

(** Updating with keys that are all new appends the items in their order. *)
Lemma dict_update_fresh d other :
  NoDup (dict_keys d ++ dict_keys other) → dict_update d other = d ++ other.
Proof.
  unfold dict_update. revert d.
  induction other as [|[k v] other IH]; intros d Hnd; simpl.
  - by rewrite app_nil_r.
  - change (dict_keys ((k, v) :: other)) with (k :: dict_keys other) in Hnd.
    rewrite dict_setitem_fresh.
    + rewrite IH; [by rewrite <- app_assoc|].
      unfold dict_keys in *. rewrite fmap_app. csimpl.
      by rewrite <- app_assoc.
    + apply NoDup_app in Hnd as (_ & Hdis & _). intros Hin.
      apply (Hdis k Hin), list_elem_of_here.
Qed.

(** With disjoint keys the merged row lists the items of the endpoint
    configuration, then of the model configuration, then of the metrics. *)
Lemma flatten_record_concat x :
  disjoint_keys x →
  flatten_record x = EndpointConfiguration x ++ ModelConfiguration x ++ Metrics x.
Proof.
  unfold disjoint_keys, record_keys, flatten_record, dict_unpack3. intros Hnd.
  rewrite (dict_update_fresh [] (EndpointConfiguration x)).
  - simpl. rewrite (dict_update_fresh _ (ModelConfiguration x)).
    + rewrite dict_update_fresh; [by rewrite <- app_assoc|].
      unfold dict_keys in *. by rewrite fmap_app, <- app_assoc.
    + rewrite app_assoc in Hnd. by apply NoDup_app in Hnd as (? & _ & _).
  - simpl. by apply NoDup_app in Hnd as (? & _ & _).
Qed.

Lemma flatten_record_keys_order x :
  disjoint_keys x → dict_keys (flatten_record x) = record_keys x.
Proof.
  intros Hdis. rewrite flatten_record_concat by done.
  unfold record_keys, dict_keys. by rewrite !fmap_app.
Qed.

Lemma add_columns_fresh (cols ks : list string) :
  NoDup (cols ++ ks) → add_columns cols ks = cols ++ ks.
Proof.
  unfold add_columns. revert cols.
  induction ks as [|k ks IH]; intros cols Hnd; simpl.
  - by rewrite app_nil_r.
  - rewrite decide_False.
    + rewrite IH; [by rewrite <- app_assoc|]. by rewrite <- app_assoc.
    + apply NoDup_app in Hnd as (_ & Hdis & _). intros Hin.
      apply (Hdis k Hin), list_elem_of_here.
Qed.

Lemma add_columns_known (cols ks : list string) :
  (∀ k, k ∈ ks → k ∈ cols) → add_columns cols ks = cols.
Proof.
  unfold add_columns. induction ks as [|k ks IH]; intros Hin; simpl; [done|].
  rewrite decide_True by (apply Hin, list_elem_of_here).
  apply IH. intros k' Hk'. by apply Hin, list_elem_of_further.
Qed.

(** Records that all have the same keys give a table with those keys as
    columns, in the order of the records. *)
Lemma frame_columns_uniform (data : list (list (string * V))) (ks : list string) :
  data ≠ [] → NoDup ks → Forall (fun d => dict_keys d = ks) data →
  frame_columns data = ks.
Proof.
  intros Hne Hnd Hall. unfold frame_columns.
  destruct data as [|d data]; [done|]. clear Hne.
  apply Forall_cons in Hall as [Hd Hall]. simpl. rewrite Hd.
  rewrite (add_columns_fresh [] ks) by done. simpl.
  induction Hall as [|d' data Hd' _ IH]; simpl; [done|].
  rewrite Hd', add_columns_known; [exact IH|done].
Qed.

(** X5. When every record has the same keys, disjoint between its three
    sub-records, the table has these keys as its columns, in the order
    endpoint configuration, model configuration, metrics and without
    [VariantName], and no cell of the table is missing. *)
Theorem flatten_table_uniform_columns recs (ks : list string) :
  recs ≠ [] →
  Forall (fun x => disjoint_keys x ∧ record_keys x = ks) recs →
  "VariantName" ∈ ks →
  ∃ df, flatten_table recs = Ok df
    ∧ columns df = filter (fun c => c ≠ "VariantName") ks
    ∧ ∀ i c, i < length recs → c ∈ columns df → ∃ v, cell df i c = Some (Some v).
Proof.
  intros Hne Hall Hvar.
  assert (frame_columns (flatten_data recs) = ks) as Hcols.
  { destruct recs as [|x0 recs]; [done|].
    pose proof (Forall_inv Hall) as [Hdis0 Hks0].
    apply frame_columns_uniform; [done| |].
    - rewrite <- Hks0. exact Hdis0.
    - unfold flatten_data. apply Forall_fmap. eapply Forall_impl; [exact Hall|].
      intros x [Hdis Hks]. simpl. by rewrite flatten_record_keys_order. }
  exists (flattened recs). split_and!.
  - apply flatten_table_Ok. split; [|done].
    destruct recs as [|x0 recs]; [done|]. exists x0.
    split; [apply list_elem_of_here|].
    pose proof (Forall_inv Hall) as [_ ->]. done.
  - unfold flattened. cbn [columns]. by rewrite Hcols.
  - intros i c Hi Hc. apply lookup_lt_is_Some in Hi as [x Hx].
    assert (disjoint_keys x ∧ record_keys x = ks) as [Hdis Hks].
    { rewrite Forall_forall in Hall. apply Hall. by eapply list_elem_of_lookup_2. }
    rewrite (flattened_cell recs i x c Hx), decide_True by done.
    unfold flattened in Hc. cbn [columns] in Hc. rewrite Hcols in Hc.
    apply list_elem_of_filter in Hc as [_ Hc]. rewrite <- Hks in Hc.
    apply flatten_record_keys, dict_get_is_Some in Hc as [v Hv].
    exists v. by rewrite Hv.
Qed.


End MoreAggregationFacts.

(** ** More on the polling cell *)

Section MorePollingFacts.
Context {Remote V : Type} `{!SageMakerClient Remote V}.

(** X7. The record the loop ends with has a terminal status; when that status is
    not FAILED, so COMPLETED or STOPPED, the cell prints the completion line
    without looking at the failure reason, and the aggregation cell runs. *)
Theorem stopped_job_is_reported_completed fuel kind name (s s' : Remote)
  (job : job_record V) log :
  poll_loop fuel name s [] = Finished job s' log →
  Status job ∈ terminal_statuses
  ∧ (Status job ≠ "FAILED" →
     (Status job = "COMPLETED" ∨ Status job = "STOPPED")
     ∧ results_flow fuel kind name s
       = Aggregated (log ++ [Print "Inference recommender job completed"]) job
           (aggregation_cell job)).
Proof.
  intros Hloop.
  assert (Status job ∈ terminal_statuses) as Hterm.
  { destruct (first_terminal_or_none fuel name s) as [(n & Hn & Hfirst)|Hnone].
    - rewrite (poll_loop_finished n name fuel s [] Hn Hfirst) in Hloop.
      injection Hloop as <- _ _. apply Hfirst.
    - by rewrite (poll_loop_still fuel name s [] Hnone) in Hloop. }
  split; [done|]. intros Hnot. split.
  - unfold terminal_statuses in Hterm.
    rewrite !elem_of_cons, elem_of_nil in Hterm. naive_solver.
  - unfold results_flow, status_report. by rewrite Hloop, decide_False.
Qed.

End MorePollingFacts.

(** ** More on the metric expression *)

Section MoreRegexFacts.

Lemma match_here_first_char (s : string) :
  (∀ rest, s ≠ String "A" rest) → match_here median_AE_regex s = None.
Proof.
  intros Hs. unfold match_here, median_AE_regex. rewrite rmatch_cat.
  change (literal "AE-at-50th-percentile: ")
    with (Cat (Lit "A") (literal "E-at-50th-percentile: ")).
  rewrite rmatch_cat. destruct s as [|c s]; [done|]. simpl.
  destruct (decide (c = "A"%char)) as [->|]; [|done]. by destruct (Hs s).
Qed.

Lemma search_cons_None (r : regex) (c : ascii) (s : string) :
  match_here r (String c s) = None → search r (String c s) = search r s.
Proof. intros Hhere. simpl. by rewrite Hhere. Qed.

(** The expression is not found in a text without the letter [A]. *)
Lemma search_without_A (s : string) :
  "A"%char ∉ list_ascii_of_string s → search median_AE_regex s = None.
Proof.
  induction s as [|c s IH]; intros Hno.
  - reflexivity.
  - simpl in Hno. apply not_elem_of_cons in Hno as [Hc Hs].
    rewrite search_cons_None; [by apply IH|].
    apply match_here_first_char. intros rest [= -> _]. done.
Qed.

(** Nor in the line of another percentile. *)
Lemma search_other_percentile (q : string) (text : string) :
  q = "10" ∨ q = "90" →
  "A"%char ∉ list_ascii_of_string text →
  search median_AE_regex ("AE-at-" +:+ q +:+ "th-percentile: " +:+ text) = None.
Proof.
  intros Hq Htext.
  assert ("A"%char ∉ list_ascii_of_string ("E-at-" +:+ q +:+ "th-percentile: " +:+ text))
    as Htail.
  { rewrite !chars_app, !not_elem_of_app. split_and!; [| | |done].
    - by apply (bool_decide_unpack _).
    - destruct Hq as [-> | ->]; by apply (bool_decide_unpack _).
    - by apply (bool_decide_unpack _). }
  change ("AE-at-" +:+ q +:+ "th-percentile: " +:+ text)
    with (String "A" ("E-at-" +:+ q +:+ "th-percentile: " +:+ text)).
  rewrite search_cons_None; [by apply search_without_A|].
  destruct Hq as [-> | ->]; reflexivity.
Qed.

(** X8. Of the three percentile lines of a run only the line of the 50th
    percentile carries the metric: when the printed values have no letter
    [A], and the 50th starts with a digit or a dot and has no line break,
    the three lines together yield exactly one value of median-AE. *)
Theorem percentile_lines_yield_one_metric (percentile : nat → string) :
  (∀ q, "A"%char ∉ list_ascii_of_string (percentile q)) →
  starts_in_class digits_dot (percentile 50) = true →
  newline ∉ list_ascii_of_string (percentile 50) →
  extract_metrics metric_definitions <$> percentile_lines percentile
  = [[]; [("median-AE", take_while (fun c => in_class c digits_dot) (percentile 50))]; []].
Proof.
  intros HnoA Hfirst Hline.
  assert (∀ line, search median_AE_regex line = None →
            extract_metrics metric_definitions line = []) as Hnone.
  { intros line Hsearch.
    change (extract_metrics metric_definitions line)
      with (match
              match search median_AE_regex line with
              | Some (v :: _) => Some ("median-AE", v)
              | _ => None
              end
            with
            | Some y => [y]
            | None => []
            end).
    by rewrite Hsearch. }
  assert (search median_AE_regex ("AE-at-50th-percentile: " +:+ percentile 50)
          = Some [take_while (fun c => in_class c digits_dot) (percentile 50)]) as Hsome.
  { pose proof (median_AE_match_here _ Hfirst Hline) as Hhere.
    destruct (percentile 50) as [|c rest]; [done|].
    change ("AE-at-50th-percentile: " +:+ String c rest)
      with (String "A" ("E-at-50th-percentile: " +:+ String c rest)) in *.
    unfold search. by rewrite Hhere. }
  change (extract_metrics metric_definitions <$> percentile_lines percentile)
    with [extract_metrics metric_definitions
            ("AE-at-" +:+ "10" +:+ "th-percentile: " +:+ percentile 10);
          extract_metrics metric_definitions
            ("AE-at-50th-percentile: " +:+ percentile 50);
          extract_metrics metric_definitions
            ("AE-at-" +:+ "90" +:+ "th-percentile: " +:+ percentile 90)].
  rewrite (Hnone _ (search_other_percentile "10" _ (or_introl eq_refl) (HnoA 10))).
  rewrite (Hnone _ (search_other_percentile "90" _ (or_intror eq_refl) (HnoA 90))).
  f_equal. f_equal.
  change (extract_metrics metric_definitions ("AE-at-50th-percentile: " +:+ percentile 50))
    with (match
            match search median_AE_regex ("AE-at-50th-percentile: " +:+ percentile 50) with
            | Some (v :: _) => Some ("median-AE", v)
            | _ => None
            end
          with
          | Some y => [y]
          | None => []
          end).
  by rewrite Hsome.
Qed.

End MoreRegexFacts.

(** ** More on model persistence *)

Section MorePersistenceFacts.
Context {Model : Type} `{!Joblib Model}.

Lemma length_append_slash (a : string) :
  String.length (a +:+ "/") = S (String.length a).
Proof.
  induction a as [|c a IH]; [done|].
  change (String c a +:+ "/") with (String c (a +:+ "/")). simpl. by rewrite IH.
Qed.

Lemma ends_with_slash_append (a : string) : ends_with_slash (a +:+ "/") = true.
Proof.
  unfold ends_with_slash. rewrite length_append_slash. simpl. rewrite Nat.sub_0_r.
  induction a as [|c a IH]; [done|].
  change (String c a +:+ "/") with (String c (a +:+ "/")).
  simpl. exact IH.
Qed.

Lemma os_path_join_relative (a : string) (c : ascii) (b : string) :
  a ≠ EmptyString → c ≠ "/"%char →
  os_path_join a (String c b)
  = if ends_with_slash a then a +:+ String c b else a +:+ "/" +:+ String c b.
Proof.
  intros Ha Hc. unfold os_path_join, ends_with_slash.
  rewrite decide_False by done.
  destruct c as [[] [] [] [] [] [] [] []]; try done.
Qed.

Lemma append_slash_assoc (a b : string) : (a +:+ "/") +:+ b = a +:+ "/" +:+ b.
Proof.
  induction a as [|c a IH]; [done|].
  change ((String c a +:+ "/") +:+ b) with (String c ((a +:+ "/") +:+ b)).
  by rewrite IH.
Qed.

(** X9. A trailing slash on the model directory makes no difference: the model
    persisted under [dir] is loaded from [dir/] and the other way round. *)
Theorem model_fn_trailing_slash (model : Model) (model_dir : string)
  (fs : gmap string (list ascii)) :
  model_dir ≠ EmptyString →
  ends_with_slash model_dir = false →
  os_path_join (model_dir +:+ "/") "model.joblib" = os_path_join model_dir "model.joblib"
  ∧ model_fn (model_dir +:+ "/") (persist_model model model_dir fs).1 = Ok model
  ∧ model_fn model_dir (persist_model model (model_dir +:+ "/") fs).1 = Ok model.
Proof.
  intros Hne Hslash.
  assert (os_path_join (model_dir +:+ "/") "model.joblib"
          = os_path_join model_dir "model.joblib") as Hjoin.
  { rewrite !os_path_join_relative; [| done | done | | done].
    - by rewrite ends_with_slash_append, Hslash, append_slash_assoc.
    - by destruct model_dir. }
  split_and!; [done|..]; unfold model_fn, persist_model; cbn [fst].
  - rewrite Hjoin. apply joblib_load_dump.
  - rewrite <- Hjoin. apply joblib_load_dump.
Qed.

End MorePersistenceFacts.

(** ** The command line of the training script *)

Section ArgparseFacts.
Context `{!PyInt}.
Implicit Types (table : list (string * action)) (items : list (string * item))
  (ns : list (string * value)) (extras : list string).

Lemma starts_with_chars (o p : string) (c : ascii) :
  starts_with o p = true → c ∈ list_ascii_of_string p → c ∈ list_ascii_of_string o.
Proof.
  revert o. induction p as [|a p IH]; intros o Hpre Hc; simpl in *.
  - by apply elem_of_nil in Hc.
  - destruct o as [|b o]; [done|].
    apply andb_true_iff in Hpre as [Hab Hpre]. apply bool_decide_eq_true in Hab as <-.
    simpl. apply elem_of_cons in Hc as [->|Hc]; [apply list_elem_of_here|].
    apply list_elem_of_further. by apply IH.
Qed.

Lemma starts_with_refl (p : string) : starts_with p p = true.
Proof.
  induction p as [|a p IH]; simpl; [done|].
  by rewrite bool_decide_eq_true_2, IH.
Qed.

Lemma starts_with_option_part (a : string) : starts_with a (option_part a) = true.
Proof.
  unfold option_part. induction a as [|c a IH]; [done|]. simpl.
  destruct (decide (c = "="%char)); [done|].
  destruct (split_at "=" a) as [[before after]|]; simpl.
  - by rewrite bool_decide_eq_true_2, IH.
  - by rewrite bool_decide_eq_true_2, starts_with_refl.
Qed.

Lemma dict_get_elem {A : Type} (k : string) (d : list (string * A)) (v : A) :
  dict_get k d = Some v → (k, v) ∈ d.
Proof.
  induction d as [|[k0 v0] d IH]; simpl; [done|].
  destruct (decide (k = k0)) as [->|].
  - intros [= ->]. apply list_elem_of_here.
  - intros Hd. by apply list_elem_of_further, IH.
Qed.

Lemma omap_nil {A B : Type} (f : A → option B) (l : list A) :
  (∀ x, x ∈ l → f x = None) → omap f l = [].
Proof.
  induction l as [|x l IH]; intros Hnone; [done|]. csimpl.
  rewrite (Hnone x) by apply list_elem_of_here.
  apply IH. intros y Hy. by apply Hnone, list_elem_of_further.
Qed.

Lemma starts_with_dashes c0 c1 rest :
  starts_with (String c0 (String c1 rest)) "--" = true ↔ c0 = "-"%char ∧ c1 = "-"%char.
Proof. simpl. rewrite !andb_true_iff, !bool_decide_eq_true. naive_solver. Qed.

(** The options an argument abbreviates are options of the table; the flag
    of such an option starts with the part of the argument before any [=]
    when the argument or the flag starts with two dashes. *)
Lemma get_option_tuples_elem table a tuples act o e :
  get_option_tuples table a = Some tuples →
  (act, o, e) ∈ tuples →
  (o, act) ∈ table
  ∧ (starts_with a "--" = true ∨ starts_with o "--" = true →
     starts_with o (option_part a) = true).
Proof.
  unfold get_option_tuples. destruct a as [|c0 [|c1 rest]]; [done..|].
  destruct (decide (c0 = "-"%char)) as [->|]; [|done].
  destruct (decide (c1 = "-"%char)) as [->|Hc1].
  - remember (String "-" (String "-" rest)) as a eqn:Ha. unfold option_part.
    destruct (split_at "=" a) as [[before after]|];
      intros [= <-] Hin; apply list_elem_of_omap in Hin as ([o' act'] & Hentry & Hf);
      destruct (starts_with o' _) eqn:Hpre; try done;
      injection Hf as -> -> _; done.
  - remember (String "-" (String c1 rest)) as a eqn:Ha.
    intros [= <-] Hin. apply list_elem_of_omap in Hin as ([o' act'] & Hentry & Hf).
    assert (starts_with a "--" = false) as Hsingle.
    { rewrite Ha. apply not_true_is_false. rewrite starts_with_dashes. naive_solver. }
    rewrite Hsingle.
    destruct (decide (o' = String "-" (String c1 EmptyString))) as [->|].
    + injection Hf as -> <- _. split; [done|].
      intros [Hdd|Hdd]; [done|]. apply starts_with_dashes in Hdd. naive_solver.
    + destruct (starts_with o' a) eqn:Hpre; [|done].
      injection Hf as -> -> _. split; [done|].
      intros [Hdd|Hdd]; [done|]. exfalso. rewrite Ha in Hpre.
      destruct o as [|a' [|b' o]]; simpl in Hdd, Hpre;
        rewrite ?andb_true_iff, ?bool_decide_eq_true in Hdd;
        rewrite ?andb_true_iff, ?bool_decide_eq_true in Hpre;
        try done; naive_solver.
Qed.

(** An argument that is read as an option with a value abbreviates the
    flag of that option: its part before any [=] is a prefix of the flag. *)
Lemma parse_optional_Store table a dest type o e :
  (∀ o' dest' type', (o', Store dest' type') ∈ table → starts_with o' "--" = true) →
  parse_optional table a = Optional (Some (Store dest type)) o e →
  starts_with o (option_part a) = true ∧ (o, Store dest type) ∈ table.
Proof.
  intros Hlong. unfold parse_optional. destruct a as [|c0 tail]; [done|].
  destruct (decide (c0 = "-"%char)) as [->|]; [|done].
  destruct (dict_get (String "-" tail) table) as [act|] eqn:Hexact.
  { intros [= -> <- <-]. split; [apply starts_with_option_part|by apply dict_get_elem]. }
  destruct tail as [|c1 rest]; [done|].
  pose proof (eq_refl (option_part (String "-" (String c1 rest)))) as Hpart.
  unfold option_part at 1 in Hpart.
  destruct (split_at "=" (String "-" (String c1 rest))) as [[before after]|] eqn:Hsplit.
  - destruct (dict_get before table) as [act|] eqn:Hbefore.
    { intros [= -> <- <-]. rewrite <- Hpart.
      split; [apply starts_with_refl|by apply dict_get_elem]. }
    destruct (get_option_tuples table _) as [[|[[act1 o1] e1] [|? ?]]|] eqn:Htuples;
      try done.
    + intros Hres. by repeat case_match.
    + intros [= -> -> ->].
      destruct (get_option_tuples_elem table _ _ (Store dest type) o e Htuples)
        as [Hentry Hpre]; [apply list_elem_of_here|].
      split; [|done]. apply Hpre. right. by eapply Hlong.
  - destruct (get_option_tuples table _) as [[|[[act1 o1] e1] [|? ?]]|] eqn:Htuples;
      try done.
    + intros Hres. by repeat case_match.
    + intros [= -> -> ->].
      destruct (get_option_tuples_elem table _ _ (Store dest type) o e Htuples)
        as [Hentry Hpre]; [apply list_elem_of_here|].
      split; [|done]. apply Hpre. right. by eapply Hlong.
Qed.

Lemma option_string_actions_Store (arguments : list argument) o dest type :
  (o, Store dest type) ∈ option_string_actions arguments →
  ∃ arg, arg ∈ arguments ∧ o = flag arg ∧ dest = dest_of (flag arg) ∧ type = type_ arg.
Proof.
  unfold option_string_actions. rewrite !elem_of_cons, list_elem_of_fmap.
  intros [[=]|[[=]|(arg & [= -> -> ->] & Harg)]]. by exists arg.
Qed.

Lemma fmap_inj_NoDup {A B : Type} (f : A → B) (l : list A) (x y : A) :
  NoDup (f <$> l) → x ∈ l → y ∈ l → f x = f y → x = y.
Proof.
  induction l as [|z l IH]; csimpl; [by intros _ ?%elem_of_nil|].
  rewrite NoDup_cons, !elem_of_cons. intros [Hz Hnd] [->|Hx] [->|Hy] Heq; auto.
  - destruct Hz. rewrite Heq. by apply list_elem_of_fmap_2.
  - destruct Hz. rewrite <- Heq. by apply list_elem_of_fmap_2.
Qed.

(** The pattern keeps the arguments in their order, and an entry for an
    option is what [_parse_optional] makes of its argument. *)
Lemma classify_items table argv items :
  classify table argv = Some items →
  items.*1 = argv
  ∧ ∀ a act o e, (a, ItemO act o e) ∈ items →
      a ∈ argv ∧ parse_optional table a = Optional act o e.
Proof.
  revert items. induction argv as [|a argv IH]; intros items; simpl.
  - intros [= <-]. split; [done|]. by intros ???? ?%elem_of_nil.
  - destruct (decide (a = "--")) as [->|Hdash].
    + intros [= <-]. split.
      * csimpl. f_equal. rewrite <- list_fmap_compose. by rewrite list_fmap_id.
      * intros a act o e [[=]|Hin]%elem_of_cons.
        by apply list_elem_of_fmap in Hin as (? & [=] & _).
    + destruct (parse_optional table a) as [|act0 o0 e0|] eqn:Hparse; [| |done];
        destruct (classify table argv) as [items'|]; [|done| |done];
        intros [= <-]; destruct (IH items' eq_refl) as [Hfst Hopt]; csimpl;
        (split; [by rewrite Hfst|]); intros a' act o e [Heq|Hin]%elem_of_cons.
      * done.
      * destruct (Hopt _ _ _ _ Hin). split; [by apply list_elem_of_further|done].
      * injection Heq as -> -> -> ->. split; [apply list_elem_of_here|done].
      * destruct (Hopt _ _ _ _ Hin). split; [by apply list_elem_of_further|done].
Qed.

(** Reading the command line changes an attribute of the namespace only
    through an option stored under it. *)
Lemma consume_keeps (d : string) : ∀ n items ns extras ns' extras',
  length items ≤ n →
  consume items ns extras = Parsed ns' extras' →
  (∀ a dest type o e, (a, ItemO (Some (Store dest type)) o e) ∈ items → dest ≠ d) →
  dict_get d ns' = dict_get d ns.
Proof.
  induction n as [|n IH]; intros items ns extras ns' extras' Hlen Hrun Hother.
  - destruct items; [|simpl in Hlen; lia]. by injection Hrun as -> _.
  - destruct items as [|[a it] rest]; [by injection Hrun as -> _|].
    simpl in Hlen.
    assert (∀ a dest type o e,
              (a, ItemO (Some (Store dest type)) o e) ∈ rest → dest ≠ d) as Hrest.
    { intros ????? Hin. eapply Hother. by apply list_elem_of_further. }
    destruct it as [| |[[|dest type]|] o [e|]]; simpl in Hrun; try done.
    + apply (IH rest _ _ _ _ ltac:(lia) Hrun Hrest).
    + apply (IH rest _ _ _ _ ltac:(lia) Hrun Hrest).
    + destruct (get_values type [e]) as [v|]; [|done].
      rewrite (IH rest _ _ _ _ ltac:(lia) Hrun Hrest), dict_get_setitem.
      rewrite decide_False; [done|]. intros ->.
      by eapply Hother; [apply list_elem_of_here|].
    + destruct rest as [|[a1 [| |]] rest']; try done.
      destruct (get_values type [a1]) as [v|]; [|done]. simpl in Hlen.
      rewrite (IH rest' _ _ _ _ ltac:(lia) Hrun), dict_get_setitem.
      * rewrite decide_False; [done|]. intros ->.
        by eapply Hother; [apply list_elem_of_here|].
      * intros ????? Hin. eapply Hrest. by apply list_elem_of_further.
    + apply (IH rest _ _ _ _ ltac:(lia) Hrun Hrest).
    + apply (IH rest _ _ _ _ ltac:(lia) Hrun Hrest).
Qed.

(** What the script declares: every option is found under its flag, the
    attributes are all different, and every default is in the namespace
    from the start. *)
Lemma script_argument_facts (environ : gmap string string) (arg : argument) :
  arg ∈ script_arguments environ →
  dict_get (flag arg) (option_string_actions (script_arguments environ))
  = Some (Store (dest_of (flag arg)) (type_ arg))
  ∧ dict_get (dest_of (flag arg)) (defaults (script_arguments environ))
    = Some (default arg)
  ∧ starts_with (flag arg) "--" = true
  ∧ flag arg ≠ "--"
  ∧ "_"%char ∉ list_ascii_of_string (flag arg).
Proof.
  unfold script_arguments. rewrite !elem_of_cons, elem_of_nil.
  intros [->|[->|[->|[->|[->|[->|[->|[->|[->|[]]]]]]]]]];
    (split_and!; [reflexivity|reflexivity|reflexivity|discriminate|]);
    by apply (bool_decide_unpack _).
Qed.

Lemma script_dests_NoDup (environ : gmap string string) :
  NoDup ((fun arg => dest_of (flag arg)) <$> script_arguments environ).
Proof. by apply (bool_decide_unpack _). Qed.

Lemma script_table_flags (environ : gmap string string) (o : string) (act : action) :
  (o, act) ∈ option_string_actions (script_arguments environ) →
  "_"%char ∉ list_ascii_of_string o.
Proof.
  unfold option_string_actions. rewrite !elem_of_cons, list_elem_of_fmap.
  intros [[= -> _]|[[= -> _]|(arg & [= -> _] & Harg)]].
  - by apply (bool_decide_unpack _).
  - by apply (bool_decide_unpack _).
  - by apply script_argument_facts in Harg as (_ & _ & _ & _ & ?).
Qed.

(** X10. An option of the script keeps its default unless some argument of the
    command line abbreviates its flag: the part of the argument before any
    [=] is a prefix of the flag. *)
Theorem option_keeps_default (environ : gmap string string) (arg : argument)
  (argv : list string) ns extras :
  arg ∈ script_arguments environ →
  parse_known_args (script_arguments environ) argv = Parsed ns extras →
  (∀ a, a ∈ argv → starts_with (flag arg) (option_part a) = false) →
  dict_get (dest_of (flag arg)) ns = Some (default arg).
Proof.
  intros Harg Hparse Hno. unfold parse_known_args in Hparse.
  destruct (classify _ argv) as [items|] eqn:Hclass; [|done].
  destruct (classify_items _ _ _ Hclass) as [_ Hitems].
  destruct (script_argument_facts environ arg Harg) as (_ & <- & _).
  apply (consume_keeps _ (length items) items _ _ _ _ (le_n _) Hparse).
  intros a dest type o e Hin ->.
  destruct (Hitems _ _ _ _ Hin) as [Ha Hopt].
  apply parse_optional_Store in Hopt as [Hpre Hentry].
  - apply option_string_actions_Store in Hentry as (arg' & Harg' & -> & Hdest & _).
    assert (arg' = arg) as ->.
    { by apply (fmap_inj_NoDup (fun arg => dest_of (flag arg)) (script_arguments environ));
        [apply script_dests_NoDup|..]. }
    by rewrite (Hno a Ha) in Hpre.
  - intros o' dest' type' (arg' & Harg' & -> & _)%option_string_actions_Store.
    by apply script_argument_facts in Harg' as (_ & _ & ? & _).
Qed.

(** An argument that does not start with a dash is an argument of the
    pattern. *)
Lemma parse_optional_plain table a :
  starts_with a "-" = false → parse_optional table a = Positional.
Proof.
  destruct a as [|c0 tail]; [done|]. intros Hdash. unfold parse_optional.
  destruct (decide (c0 = "-"%char)) as [->|]; [|done]. by simpl in Hdash.
Qed.

(** An argument of two dashes and a name with an underscore is no option of
    the script. *)
Lemma parse_optional_underscore (environ : gmap string string) (a : string) :
  starts_with a "--" = true →
  "_"%char ∈ list_ascii_of_string (option_part a) →
  parse_optional (option_string_actions (script_arguments environ)) a = Positional
  ∨ parse_optional (option_string_actions (script_arguments environ)) a
    = Optional None a None.
Proof.
  intros Hdd Hunder.
  set (table := option_string_actions (script_arguments environ)).
  assert (∀ o act, (o, act) ∈ table → starts_with o (option_part a) = false) as Hnone.
  { intros o act Hentry. destruct (starts_with o (option_part a)) eqn:Hpre; [|done].
    apply (script_table_flags environ) in Hentry.
    destruct Hentry. by eapply starts_with_chars. }
  unfold parse_optional. destruct a as [|c0 tail]; [by left|].
  destruct (decide (c0 = "-"%char)) as [->|]; [|by left].
  destruct (dict_get (String "-" tail) table) as [act|] eqn:Hexact.
  { apply dict_get_elem, Hnone in Hexact.
    by rewrite starts_with_option_part in Hexact. }
  destruct tail as [|c1 rest]; [by left|].
  pose proof (eq_refl (option_part (String "-" (String c1 rest)))) as Hpart.
  unfold option_part at 1 in Hpart.
  assert (∀ tuples, get_option_tuples table (String "-" (String c1 rest)) = Some tuples →
            tuples = []) as Hempty.
  { intros [|[[act o] e] tuples] Htuples; [done|].
    destruct (get_option_tuples_elem table _ _ act o e Htuples) as [Hentry Hpre];
      [apply list_elem_of_here|].
    apply Hnone in Hentry. rewrite Hpre in Hentry; [done|by left]. }
  destruct (split_at "=" (String "-" (String c1 rest))) as [[before after]|] eqn:Hsplit.
  - destruct (dict_get before table) as [act|] eqn:Hbefore.
    { apply dict_get_elem, Hnone in Hbefore.
      by rewrite <- Hpart, starts_with_refl in Hbefore. }
    destruct (get_option_tuples table _) as [tuples|] eqn:Htuples.
    + rewrite (Hempty tuples eq_refl). repeat case_match; auto.
    + simpl in Hdd. unfold get_option_tuples in Htuples.
      rewrite decide_True in Htuples by done. by repeat case_match.
  - destruct (get_option_tuples table _) as [tuples|] eqn:Htuples.
    + rewrite (Hempty tuples eq_refl). repeat case_match; auto.
    + simpl in Hdd. unfold get_option_tuples in Htuples.
      rewrite decide_True in Htuples by done. by repeat case_match.
Qed.

Lemma consume_ignored items ns extras :
  Forall (fun it => it.2 = ItemA ∨ ∃ o, it.2 = ItemO None o None) items →
  consume items ns extras = Parsed ns (extras ++ items.*1).
Proof.
  intros Hall. revert extras.
  induction Hall as [|[a it] items Hit _ IH]; intros extras; simpl.
  - by rewrite app_nil_r.
  - destruct Hit as [Hit|[o Hit]]; simpl in Hit; subst it;
      rewrite IH; by rewrite <- app_assoc.
Qed.

(** X11. Options spelled with an underscore are not options of the script: a
    command line made of such options and of arguments without a leading
    dash leaves every attribute at its default and goes to the extras as a
    whole. *)
Theorem underscore_options_are_ignored (environ : gmap string string)
  (argv : list string) :
  Forall (fun a => starts_with a "-" = false
                   ∨ (starts_with a "--" = true
                      ∧ "_"%char ∈ list_ascii_of_string (option_part a))) argv →
  parse_known_args (script_arguments environ) argv
  = Parsed (defaults (script_arguments environ)) argv.
Proof.
  intros Hall. unfold parse_known_args.
  assert (∃ items, classify (option_string_actions (script_arguments environ)) argv = Some items ∧ items.*1 = argv
            ∧ Forall (fun it => it.2 = ItemA ∨ ∃ o, it.2 = ItemO None o None) items)
    as (items & -> & Hfst & Hign).
  { induction Hall as [|a argv Ha _ (items & Hclass & Hfst & Hign)].
    - by exists [].
    - simpl. rewrite Hclass.
      assert (a ≠ "--") as Hdash.
      { intros ->. destruct Ha as [Ha|[_ Ha]]; [done|].
        revert Ha. by apply (bool_decide_unpack _). }
      rewrite decide_False by done.
      destruct Ha as [Ha|[Hdd Hunder]].
      + rewrite parse_optional_plain by done. eexists. split; [done|].
        csimpl. split; [by rewrite Hfst|]. constructor; [by left|done].
      + destruct (parse_optional_underscore environ a Hdd Hunder) as [-> | ->];
          (eexists; split; [done|]; csimpl; split; [by rewrite Hfst|]);
          (constructor; [|done]); [by left|right; by eexists]. }
  rewrite consume_ignored by done. by rewrite Hfst.
Qed.

(** X12. Declared options, each given by its full flag and followed by a value
    without a leading dash that its type accepts, are all stored, a later one
    over an earlier one of the same flag, and nothing goes to the extras. *)
Theorem declared_options_are_stored (environ : gmap string string)
  (given : list (argument * string * value)) :
  Forall (fun '(arg, text, v) =>
            arg ∈ script_arguments environ
            ∧ starts_with text "-" = false
            ∧ get_value (type_ arg) text = Some v) given →
  parse_known_args (script_arguments environ)
    (given ≫= fun '(arg, text, _) => [flag arg; text])
  = Parsed
      (fold_left (fun ns '(arg, _, v) => dict_setitem (dest_of (flag arg)) v ns) given
         (defaults (script_arguments environ)))
      [].
Proof.
  intros Hall. unfold parse_known_args.
  set (table := option_string_actions (script_arguments environ)).
  assert (classify table (given ≫= fun '(arg, text, _) => [flag arg; text])
          = Some (given ≫= fun '(arg, text, _) =>
                    [(flag arg, ItemO (Some (Store (dest_of (flag arg)) (type_ arg)))
                                  (flag arg) None);
                     (text, ItemA)])) as ->.
  { induction Hall as [|[[arg text] v] given (Harg & Htext & _) _ IH]; [done|].
    csimpl. rewrite IH.
    destruct (script_argument_facts environ arg Harg) as (Hflag & _ & Hdd & Hdash & _).
    rewrite decide_False by done.
    assert (parse_optional table (flag arg)
            = Optional (Some (Store (dest_of (flag arg)) (type_ arg))) (flag arg) None)
      as ->.
    { unfold parse_optional. destruct (flag arg) as [|c0 tail] eqn:Hf; [done|].
      simpl in Hdd. apply andb_true_iff in Hdd as [Hc0 _].
      apply bool_decide_eq_true in Hc0 as <-.
      rewrite decide_True by done. fold table in Hflag. by rewrite Hflag. }
    csimpl. rewrite decide_False by (by intros ->).
    by rewrite parse_optional_plain. }
  generalize (defaults (script_arguments environ)).
  induction Hall as [|[[arg text] v] given (Harg & Htext & Hv) _ IH]; intros ns; [done|].
  csimpl. unfold get_values.
  assert (remove_first "--" [text] = [text]) as ->.
  { simpl. rewrite decide_False; [done|]. by intros ->. }
  rewrite Hv. apply IH.
Qed.

End ArgparseFacts.

(** * The claims on sample inputs *)

Section Instances.
Import Samples.

Local Ltac by_computation := apply (bool_decide_unpack _); vm_compute; exact I.

(** C1 on the two records of the example scenario, which differ in
    [OMP_NUM_THREADS] only. *)
Lemma flatten_table_union_of_keys_witness :
  let recs := [rec_threads "2" "45"; rec_threads "4" "52"] in
  recs ≠ []
  ∧ Forall disjoint_keys recs
  ∧ Exists (fun x => "VariantName" ∈ record_keys x) recs
  ∧ ∃ df, flatten_table recs = Ok df
      ∧ length (rows df) = 2
      ∧ ("VariantName" ∉ columns df)
      ∧ cell df 1 "OMP_NUM_THREADS" = Some (Some "4").
Proof.
  intros recs.
  assert (recs ≠ []) as Hne by discriminate.
  assert (Forall disjoint_keys recs) as Hdis.
  { unfold recs, disjoint_keys. by_computation. }
  assert (Exists (fun x => "VariantName" ∈ record_keys x) recs) as Hvar.
  { unfold recs. by_computation. }
  split_and!; [exact Hne|exact Hdis|exact Hvar|].
  destruct (flatten_table_union_of_keys recs Hne Hdis Hvar)
    as (df & Hdf & Hlen & _ & _ & Hcols & Hcell).
  exists df. split_and!; [exact Hdf|exact Hlen| |].
  - intros [Hneq _]%Hcols. congruence.
  - apply (Hcell 1 (rec_threads "4" "52")); [reflexivity|discriminate|].
    right. left. reflexivity.
Defined.

(** C1 as stated fails on a record without [VariantName]: the list is not
    empty and the keys are disjoint, but the cell raises instead of producing
    a table. *)
Lemma flatten_table_unlabelled_counterexample :
  [rec_unlabelled] ≠ []
  ∧ Forall disjoint_keys [rec_unlabelled]
  ∧ flatten_table [rec_unlabelled] = Raise (KeyError "VariantName")
  ∧ ¬ ∃ df, flatten_table [rec_unlabelled] = Ok df.
Proof.
  split_and!.
  - discriminate.
  - unfold disjoint_keys. by_computation.
  - vm_compute. reflexivity.
  - intros [df Hdf]. vm_compute in Hdf. discriminate Hdf.
Qed.

(** C8 on the same two records: the second row is the row of the second
    record. *)
Lemma flatten_table_keeps_order_witness :
  let recs := [rec_threads "2" "45"; rec_threads "4" "52"] in
  flatten_table recs = Ok (flattened recs)
  ∧ length (rows (flattened recs)) = 2
  ∧ rows (flattened recs) !! 1
    = Some (frame_row (columns (flattened recs)) (flatten_record (rec_threads "4" "52"))).
Proof.
  intros recs.
  assert (flatten_table recs = Ok (flattened recs)) as Hdf by (vm_compute; reflexivity).
  destruct (flatten_table_keeps_order recs) as (_ & _ & Htable).
  destruct (Htable (flattened recs) Hdf) as [Hlen Hrow].
  split_and!; [exact Hdf|exact Hlen|]. rewrite Hrow. reflexivity.
Defined.

(** C10 on a record whose sub-records share keys: [InstanceType] takes the
    value of the metrics, [OMP_NUM_THREADS] that of the model
    configuration. *)
Lemma flatten_record_right_biased_witness :
  dict_wf (EndpointConfiguration rec_overlap)
  ∧ dict_wf (ModelConfiguration rec_overlap)
  ∧ dict_wf (Metrics rec_overlap)
  ∧ dict_get "InstanceType" (flatten_record rec_overlap) = Some "metrics"
  ∧ dict_get "OMP_NUM_THREADS" (flatten_record rec_overlap) = Some "model"
  ∧ ∃ df, flatten_table [rec_overlap] = Ok df
      ∧ cell df 0 "InstanceType" = Some (Some "metrics").
Proof.
  assert (dict_wf (EndpointConfiguration rec_overlap)) as He.
  { unfold dict_wf. by_computation. }
  assert (dict_wf (ModelConfiguration rec_overlap)) as Hm.
  { unfold dict_wf. by_computation. }
  assert (dict_wf (Metrics rec_overlap)) as Hx.
  { unfold dict_wf. by_computation. }
  split_and!; [exact He|exact Hm|exact Hx| | |].
  - apply (flatten_record_right_biased rec_overlap "InstanceType" He Hm Hx).
  - apply (flatten_record_right_biased rec_overlap "OMP_NUM_THREADS" He Hm Hx).
  - exists (flattened [rec_overlap]). split; [vm_compute; reflexivity|].
    destruct (flatten_record_right_biased rec_overlap "InstanceType" He Hm Hx)
      as [_ Hcell].
    apply (Hcell [rec_overlap] (flattened [rec_overlap]) 0);
      [vm_compute; reflexivity|reflexivity|].
    by_computation.
Defined.

(** C3 on a job that is found in progress once and then failed. *)
Lemma failed_status_is_reported_not_gated_witness :
  let name := default_job_name "resnet50" 1690000000 in
  let script := [in_progress_job; failed_job] in
  let log := waiting_log 1 name ++ [Describe name] in
  @poll_loop _ _ scripted_service 5 name script [] = Finished failed_job [failed_job] log
  ∧ Status failed_job = "FAILED"
  ∧ @results_flow _ _ scripted_service 5 DefaultJob name script
    = Aggregated
        (log ++ [Print "Inference recommender job failed ";
                 Print "Failed Reason: Benchmark failed to start for ml.c5.xlarge"])
        failed_job (aggregation_cell failed_job).
Proof.
  intros name script log.
  assert (@poll_loop _ _ scripted_service 5 name script []
          = Finished failed_job [failed_job] log) as Hloop by (vm_compute; reflexivity).
  assert (Status failed_job = "FAILED") as Hfailed by reflexivity.
  split_and!; [exact Hloop|exact Hfailed|].
  exact (@failed_status_is_reported_not_gated _ _ scripted_service 5 DefaultJob name
           script failed_job [failed_job] log Hloop Hfailed).
Defined.

(** C3 as stated fails: after a failed status the flow reaches the
    aggregation cell, which builds its table; and a failed record may carry
    an empty reason, which is printed as it is. *)
Lemma failed_flow_counterexample :
  let name := default_job_name "resnet50" 1690000000 in
  Status failed_job = "FAILED"
  ∧ (∃ log, @results_flow _ _ scripted_service 5 DefaultJob name [in_progress_job; failed_job]
            = Aggregated log failed_job (Ok (flattened [rec_threads "2" "45"])))
  ∧ Status failed_job_no_reason = "FAILED"
  ∧ FailureReason failed_job_no_reason = Some EmptyString
  ∧ @results_flow _ _ scripted_service 5 DefaultJob name [failed_job_no_reason]
    = Aggregated
        [Describe name; Print "Inference recommender job failed "; Print "Failed Reason: "]
        failed_job_no_reason (Ok (flattened [rec_threads "2" "45"])).
Proof.
  intros name. split_and!; [reflexivity| |reflexivity|reflexivity|vm_compute; reflexivity].
  eexists. vm_compute. reflexivity.
Qed.

(** C4 on the example scenario: in progress twice, then completed. *)
Lemma poll_loop_ends_at_first_terminal_witness :
  let name := default_job_name "resnet50" 1690000000 in
  let script := [in_progress_job; in_progress_job; completed_job] in
  @first_terminal_at _ _ scripted_service 2 name script
  ∧ @poll_loop _ _ scripted_service 10 name script []
    = Finished completed_job [completed_job] (waiting_log 2 name ++ [Describe name]).
Proof.
  intros name script.
  assert (@first_terminal_at _ _ scripted_service 2 name script) as Hfirst.
  { split; [by_computation|].
    intros k Hk. destruct k as [|[|k]]; [by_computation..|lia]. }
  split; [exact Hfirst|].
  apply (@poll_loop_ends_at_first_terminal _ _ scripted_service).
  exists 2. split_and!; [lia|exact Hfirst|reflexivity..].
Defined.

(** C5 on a stuck job: after twelve passes the loop has slept an hour and
    is still polling. *)
Lemma poll_loop_blocks_forever_witness :
  let name := default_job_name "resnet50" 1690000000 in
  (∀ n, ¬ @terminal_at _ _ stuck_service n name ())
  ∧ @poll_loop _ _ stuck_service 12 name () [] = StillPolling () (waiting_log 12 name)
  ∧ slept (waiting_log 12 name) = 3600%Z.
Proof.
  intros name.
  assert (∀ n, @state_before _ _ stuck_service n name () = ()) as Hstate.
  { intros n. induction n as [|n IH]; [reflexivity|exact IH]. }
  assert (∀ n, ¬ @terminal_at _ _ stuck_service n name ()) as Hnever.
  { intros n. unfold terminal_at, response. rewrite Hstate. by_computation. }
  split; [exact Hnever|].
  destruct (@poll_loop_blocks_forever _ _ stuck_service name () Hnever 12)
    as (Hloop & _ & _ & Hslept).
  split; [|exact Hslept].
  rewrite Hloop, Hstate. reflexivity.
Defined.

(** C6 on a run whose percentiles are finite. *)
Lemma median_AE_line_is_matched_witness :
  let percentile := fun q : nat =>
    if decide (q = 50) then "0.2097" else if decide (q = 10) then "0.0312" else "0.9133" in
  starts_in_class digits_dot (percentile 50) = true
  ∧ (newline ∉ list_ascii_of_string (percentile 50))
  ∧ percentile_lines percentile !! 1 = Some "AE-at-50th-percentile: 0.2097"
  ∧ search median_AE_regex "AE-at-50th-percentile: 0.2097" = Some ["0.2097"]
  ∧ extract_metrics metric_definitions "AE-at-50th-percentile: 0.2097"
    = [("median-AE", "0.2097")].
Proof.
  intros percentile.
  assert (starts_in_class digits_dot (percentile 50) = true) as Hfirst by reflexivity.
  assert (newline ∉ list_ascii_of_string (percentile 50)) as Hline by by_computation.
  split_and!; [exact Hfirst|exact Hline|..];
    apply (median_AE_line_is_matched percentile Hfirst Hline).
Defined.

(** C6 as stated fails on a run whose absolute errors contain a NaN: the
    percentile is printed as [nan], the expression is not found in the line
    and no metric is read. *)
Lemma median_AE_nan_counterexample :
  let percentile := fun _ : nat => "nan" in
  percentile_lines percentile !! 1 = Some "AE-at-50th-percentile: nan"
  ∧ search median_AE_regex "AE-at-50th-percentile: nan" = None
  ∧ extract_metrics metric_definitions "AE-at-50th-percentile: nan" = [].
Proof. split_and!; vm_compute; reflexivity. Qed.


(** C9 on a model kept as text. *)
Lemma model_fn_after_persist_model_witness :
  @model_fn _ text_joblib "/opt/ml/model"
    (@persist_model _ text_joblib "forest" "/opt/ml/model" ∅).1
  = Ok "forest".
Proof. exact (@model_fn_after_persist_model _ text_joblib "forest" "/opt/ml/model" ∅). Defined.

(** The tuner result cell on a tuner whose first two answers are empty: the
    third answer is returned after two seconds of sleep. *)
Lemma tuner_results_returns_first_table_witness :
  let script := [no_results; no_results; one_result] in
  @first_results_at _ _ scripted_analytics 2 script
  ∧ @tuner_results _ _ scripted_analytics 5 script = Results one_result [] (tuner_log 2)
  ∧ tuner_slept (tuner_log 2) = 2%Z.
Proof.
  intros script.
  assert (@first_results_at _ _ scripted_analytics 2 script) as Hfirst.
  { split; [reflexivity|]. intros [|[|k]] Hk; [reflexivity|reflexivity|lia]. }
  split_and!; [exact Hfirst| |reflexivity].
  apply (proj2 (@tuner_results_returns_first_table _ _ scripted_analytics 5 script
                  one_result [] (tuner_log 2))).
  exists 2. split_and!; [lia|exact Hfirst|reflexivity..].
Defined.

(** The tuner result cell on a tuner none of whose jobs ever starts. *)
Lemma tuner_results_waits_forever_witness :
  (∀ n, df_empty (@tuner_answer _ _ idle_analytics n ()) = true)
  ∧ @tuner_results _ _ idle_analytics 3 () = StillWaiting () (tuner_log 3)
  ∧ tuner_slept (tuner_log 3) = 3%Z
  ∧ length (tuner_log 3) = 7.
Proof.
  assert (∀ n, df_empty (@tuner_answer _ _ idle_analytics n ()) = true) as Hidle.
  { intros n. reflexivity. }
  split; [exact Hidle|].
  exact (@tuner_results_waits_forever _ _ idle_analytics () Hidle 3).
Defined.

(** Two model package groups created a minute apart. *)
Lemma model_package_group_names_differ_witness :
  (1690000000 ≠ 1690000060)%Z
  ∧ model_package_group_name "tensorflow" 1690000000
    ≠ model_package_group_name "tensorflow" 1690000060.
Proof.
  assert (1690000000 ≠ 1690000060)%Z as Hclock by discriminate.
  split; [exact Hclock|].
  exact (model_package_group_names_differ "tensorflow" "tensorflow" _ _ Hclock).
Defined.

(** The job names of the example scenario. *)
Lemma job_names_have_no_dot_witness :
  Forall (fun c => name_char c = true) (list_ascii_of_string "resnet50")
  ∧ Forall (fun c => name_char c = true ∨ c = "."%char)
      (list_ascii_of_string "ml.c5.xlarge")
  ∧ (0 ≤ 1690000000)%Z
  ∧ "."%char ∉ list_ascii_of_string (advanced_job_name "resnet50" "ml.c5.xlarge" 1690000000).
Proof.
  assert (Forall (fun c => name_char c = true) (list_ascii_of_string "resnet50")) as Hmodel
    by by_computation.
  assert (Forall (fun c => name_char c = true ∨ c = "."%char)
            (list_ascii_of_string "ml.c5.xlarge")) as Hinstance by by_computation.
  assert (0 ≤ 1690000000)%Z as Hclock by discriminate.
  split_and!; [exact Hmodel|exact Hinstance|exact Hclock|].
  apply (job_names_have_no_dot "resnet50" "ml.c5.xlarge" 1690000000 Hmodel Hinstance Hclock).
Defined.

(** The two records of the example scenario have the same keys. *)
Lemma flatten_table_uniform_columns_witness :
  let recs := [rec_threads "2" "45"; rec_threads "4" "52"] in
  let ks := record_keys (rec_threads "2" "45") in
  recs ≠ []
  ∧ Forall (fun x => disjoint_keys x ∧ record_keys x = ks) recs
  ∧ "VariantName" ∈ ks
  ∧ ∃ df, flatten_table recs = Ok df
      ∧ columns df
        = ["EndpointName"; "InstanceType"; "InitialInstanceCount";
           "InferenceSpecificationName"; "OMP_NUM_THREADS"; "CostPerHour";
           "CostPerInference"; "MaxInvocations"; "ModelLatency"]
      ∧ ∃ v, cell df 1 "ModelLatency" = Some (Some v).
Proof.
  intros recs ks.
  assert (recs ≠ []) as Hne by discriminate.
  assert (Forall (fun x => disjoint_keys x ∧ record_keys x = ks) recs) as Hsame.
  { unfold recs, ks, disjoint_keys. by_computation. }
  assert ("VariantName" ∈ ks) as Hvar by (unfold ks; by_computation).
  split_and!; [exact Hne|exact Hsame|exact Hvar|].
  destruct (flatten_table_uniform_columns recs ks Hne Hsame Hvar) as (df & Hdf & Hcols & Hcell).
  exists df. split_and!; [exact Hdf|rewrite Hcols; vm_compute; reflexivity|].
  apply Hcell; [unfold recs; simpl; lia|]. rewrite Hcols. unfold ks. by_computation.
Defined.


(** A job that is found in progress once and then stopped: the completion
    line is printed and the aggregation cell runs on its empty list. *)
Lemma stopped_job_is_reported_completed_witness :
  let name := default_job_name "resnet50" 1690000000 in
  let script := [in_progress_job; stopped_job] in
  let log := waiting_log 1 name ++ [Describe name] in
  @poll_loop _ _ scripted_service 5 name script [] = Finished stopped_job [stopped_job] log
  ∧ Status stopped_job ≠ "FAILED"
  ∧ @results_flow _ _ scripted_service 5 DefaultJob name script
    = Aggregated (log ++ [Print "Inference recommender job completed"]) stopped_job
        (aggregation_cell stopped_job).
Proof.
  intros name script log.
  assert (@poll_loop _ _ scripted_service 5 name script []
          = Finished stopped_job [stopped_job] log) as Hloop by (vm_compute; reflexivity).
  assert (Status stopped_job ≠ "FAILED") as Hstatus by discriminate.
  split_and!; [exact Hloop|exact Hstatus|].
  destruct (@stopped_job_is_reported_completed _ _ scripted_service 5 DefaultJob name
              script [stopped_job] stopped_job log Hloop) as [_ Hflow].
  exact (proj2 (Hflow Hstatus)).
Defined.

(** The percentile lines of a run. *)
Lemma percentile_lines_yield_one_metric_witness :
  (∀ q, "A"%char ∉ list_ascii_of_string (sample_percentile q))
  ∧ starts_in_class digits_dot (sample_percentile 50) = true
  ∧ (newline ∉ list_ascii_of_string (sample_percentile 50))
  ∧ extract_metrics metric_definitions <$> percentile_lines sample_percentile
    = [[]; [("median-AE", "51234.5")]; []].
Proof.
  assert (∀ q, "A"%char ∉ list_ascii_of_string (sample_percentile q)) as Hletters.
  { intros q. unfold sample_percentile.
    destruct (decide (q = 10)); [by_computation|].
    destruct (decide (q = 50)); by_computation. }
  assert (starts_in_class digits_dot (sample_percentile 50) = true) as Hstart
    by (vm_compute; reflexivity).
  assert (newline ∉ list_ascii_of_string (sample_percentile 50)) as Hline by by_computation.
  split_and!; [exact Hletters|exact Hstart|exact Hline|].
  rewrite (percentile_lines_yield_one_metric sample_percentile Hletters Hstart Hline).
  vm_compute. reflexivity.
Defined.

(** The model directory of a training container, with and without a
    trailing slash. *)
Lemma model_fn_trailing_slash_witness :
  "/opt/ml/model" ≠ EmptyString
  ∧ ends_with_slash "/opt/ml/model" = false
  ∧ @model_fn _ text_joblib "/opt/ml/model/"
      (@persist_model _ text_joblib "forest" "/opt/ml/model" ∅).1
    = Ok "forest".
Proof.
  assert ("/opt/ml/model" ≠ EmptyString) as Hdir by discriminate.
  assert (ends_with_slash "/opt/ml/model" = false) as Hslash by (vm_compute; reflexivity).
  split_and!; [exact Hdir|exact Hslash|].
  destruct (@model_fn_trailing_slash _ text_joblib "forest" "/opt/ml/model" ∅ Hdir Hslash)
    as (_ & Hload & _).
  exact Hload.
Defined.

(** Hyperparameters passed with underscores, and a model directory: the
    number of estimators stays at its default. *)
Lemma option_keeps_default_witness :
  let arg := {| flag := "--n-estimators"; type_ := TInt; default := VInt 10 |} in
  let argv := ["--min_samples_leaf"; "3"; "--n_estimators"; "300";
               "--model-dir"; "/tmp/model"] in
  let ns := dict_setitem "model_dir" (VStr "/tmp/model")
              (defaults (script_arguments training_environ)) in
  arg ∈ script_arguments training_environ
  ∧ @parse_known_args dec_int (script_arguments training_environ) argv
    = Parsed ns ["--min_samples_leaf"; "3"; "--n_estimators"; "300"]
  ∧ (∀ a, a ∈ argv → starts_with (flag arg) (option_part a) = false)
  ∧ dict_get "n_estimators" ns = Some (VInt 10).
Proof.
  intros arg argv ns.
  assert (arg ∈ script_arguments training_environ) as Harg by apply list_elem_of_here.
  assert (@parse_known_args dec_int (script_arguments training_environ) argv
          = Parsed ns ["--min_samples_leaf"; "3"; "--n_estimators"; "300"]) as Hparse
    by (vm_compute; reflexivity).
  assert (∀ a, a ∈ argv → starts_with (flag arg) (option_part a) = false) as Hno.
  { apply Forall_forall. unfold argv, arg. by_computation. }
  split_and!; [exact Harg|exact Hparse|exact Hno|].
  exact (@option_keeps_default dec_int training_environ arg argv ns _ Harg Hparse Hno).
Defined.

(** Hyperparameters passed with underscores only. *)
Lemma underscore_options_are_ignored_witness :
  let argv := ["--min_samples_leaf"; "3"; "--n_estimators"; "300"] in
  Forall (fun a => starts_with a "-" = false
                   ∨ (starts_with a "--" = true
                      ∧ "_"%char ∈ list_ascii_of_string (option_part a))) argv
  ∧ @parse_known_args dec_int (script_arguments training_environ) argv
    = Parsed (defaults (script_arguments training_environ)) argv.
Proof.
  intros argv.
  assert (Forall (fun a => starts_with a "-" = false
                   ∨ (starts_with a "--" = true
                      ∧ "_"%char ∈ list_ascii_of_string (option_part a))) argv) as Hargv.
  { unfold argv. by_computation. }
  split; [exact Hargv|].
  exact (@underscore_options_are_ignored dec_int training_environ argv Hargv).
Defined.

(** The number of estimators and the model directory, given by their
    flags. *)
Lemma declared_options_are_stored_witness :
  let given :=
    [({| flag := "--n-estimators"; type_ := TInt; default := VInt 10 |}, "300", VInt 300);
     ({| flag := "--model-dir"; type_ := TStr;
         default := environ_get training_environ "SM_MODEL_DIR" |},
      "/tmp/model", VStr "/tmp/model")] in
  Forall (fun '(arg, text, v) =>
            arg ∈ script_arguments training_environ
            ∧ starts_with text "-" = false
            ∧ @get_value dec_int (type_ arg) text = Some v) given
  ∧ @parse_known_args dec_int (script_arguments training_environ)
      ["--n-estimators"; "300"; "--model-dir"; "/tmp/model"]
    = Parsed
        (dict_setitem "model_dir" (VStr "/tmp/model")
           (dict_setitem "n_estimators" (VInt 300)
              (defaults (script_arguments training_environ))))
        [].
Proof.
  intros given.
  assert (Forall (fun '(arg, text, v) =>
            arg ∈ script_arguments training_environ
            ∧ starts_with text "-" = false
            ∧ @get_value dec_int (type_ arg) text = Some v) given) as Hgiven.
  { repeat apply Forall_cons_2; [| |apply Forall_nil_2]; split_and!;
      try (vm_compute; reflexivity).
    - apply list_elem_of_here.
    - do 2 apply list_elem_of_further. apply list_elem_of_here. }
  split; [exact Hgiven|].
  exact (@declared_options_are_stored dec_int training_environ given Hgiven).
Defined.

End Instances.
